(** * Mindwave: time-attack session protocol and client play engine

    A shallow embedding of the parts of the Mindwave code base that carry
    state and scoring rules:

    - [server.js]: the three time-attack route handlers
      ([POST /api/time-attack/start], [POST /api/time-attack/submit],
      [GET /api/leaderboard/time-attack]) over the Mongoose collections
      they touch;
    - [student-game-engine.js]: the quiz, fill-in and debug engines, the
      result store and the countdown timer;
    - [faculty-create-quiz.js], [faculty-create-fillin.js]: the records
      written by the authoring forms.

    Numbers that the code keeps integral (scores, cursors, millisecond
    stamps) are [Z] or [nat]; the quotients the engines compute are taken
    in [Q] and rounded with [Math_round], and the fill-in score rounds its
    quotient and its product to doubles with [to_double], as the engine
    does. *)

From Stdlib Require Import ZArith QArith Qround Qabs Qpower Lia Lqa.
From stdpp Require Import base option list strings gmap sorting.

Local Open Scope string_scope.
Local Open Scope list_scope.
Local Open Scope Z_scope.

(** ** JavaScript values *)

(** The JSON values a request body or a stored game record can hold,
    plus [undefined] for a property that is absent. *)
#[warnings="-register-all"]
Inductive JsVal : Type :=
| JUndefined
| JNull
| JBool (b : bool)
| JNum (n : Z)
| JStr (s : string)
| JArr (items : list JsVal)
| JObj (fields : list (string * JsVal)).

(** ToBoolean: what [if (v)], [!v] and [!!v] look at. *)
Definition truthy (v : JsVal) : bool :=
  match v with
  | JUndefined | JNull => false
  | JBool b => b
  | JNum n => negb (n =? 0)%Z
  | JStr s => negb (String.eqb s EmptyString)
  | JArr _ | JObj _ => true
  end.

(** [v === undefined] *)
Definition is_undefined (v : JsVal) : bool :=
  match v with JUndefined => true | _ => false end.

(** Property read [o.k]: [undefined] when [o] has no own property [k]
    (the first binding wins, objects built by literals have one). *)
Fixpoint assoc (k : string) (fields : list (string * JsVal)) : JsVal :=
  match fields with
  | [] => JUndefined
  | (k', v) :: rest => if String.eqb k k' then v else assoc k rest
  end.

Definition get_prop (o : JsVal) (k : string) : JsVal :=
  match o with JObj fields => assoc k fields | _ => JUndefined end.

(** [a === b] where the left operand is a number. *)
Definition num_strict_eq (a : Z) (v : JsVal) : bool :=
  match v with JNum b => (a =? b)%Z | _ => false end.

(** [Math.round]: the integer nearest to [x], halves rounded up. *)
Definition Math_round (x : Q) : Z := Qfloor (x + (1 # 2))%Q.

(** ** Server: the time-attack collections *)

(** Document ids. *)
Abbreviation ObjectId := nat (only parsing).

Inductive SessionStatus := InProgress | Completed.

Global Instance SessionStatus_eq_dec : EqDecision SessionStatus.
Proof. solve_decision. Defined.

(** [gameSchema] *)
Record Game := mkGame {
  g_id : ObjectId;
  g_title : string;
  g_type : string;
  g_difficulty : string;
  g_brief : string;
  g_published : bool;
  g_createdBy : ObjectId
}.

(** A game as returned by [.select("-createdBy -published")]. *)
Record GameView := mkGameView {
  v_id : ObjectId;
  v_title : string;
  v_type : string;
  v_difficulty : string;
  v_brief : string
}.

(** [gameSubmissionSchema] *)
Record GameSubmission := mkGameSubmission {
  gs_gameId : ObjectId;
  gs_studentId : ObjectId;
  gs_isCorrect : bool;
  gs_submittedAt : Z
}.

(** [timeAttackSessionSchema]; the document's [_id] is its position in
    the collection. *)
Record TimeAttackSession := mkSession {
  studentId : ObjectId;
  questions : list ObjectId;
  currentQuestionIndex : nat;
  score : Z;
  startTime : Z;
  endTime : option Z;
  status : SessionStatus
}.

(** [timeAttackLeaderboardSchema] *)
Record LeaderboardEntry := mkEntry {
  lb_studentId : ObjectId;
  lb_score : Z;
  lb_timeTakenMs : Z;
  lb_date : Z
}.

Record Db := mkDb {
  games : list Game;
  sessions : list TimeAttackSession;
  submissions : list GameSubmission;
  leaderboard : list LeaderboardEntry
}.

(** What a handler sends back.  A handler reads the clock once: the
    [now] it is given stands for every [Date] it creates. *)
Inductive Response :=
| StartOk (sessionId : ObjectId) (question : option GameView)
| SubmitInProgress (question : option GameView)
| SubmitCompleted (finalScore timeTakenMs : Z)
| LeaderboardOk (rows : list LeaderboardEntry)
| GamesOk
| Failure (code : nat) (message : string).

Definition TIME_ATTACK_QUESTION_COUNT : nat := 5.

(** [Game.findById(id).select("-createdBy -published")] *)
Definition select_view (g : Game) : GameView :=
  mkGameView (g_id g) (g_title g) (g_type g) (g_difficulty g) (g_brief g).

Definition Game_findById (gs : list Game) (id : ObjectId) : option GameView :=
  select_view <$> List.find (fun g => Nat.eqb (g_id g) id) gs.

(** ** [POST /api/time-attack/start] *)

(** The body of a start request: both filters are optional strings. *)
Record StartBody := mkStartBody {
  sb_type : option string;
  sb_difficulty : option string
}.

(** [if (f) query.field = f]: an absent or empty filter matches all. *)
Definition filter_matches (f : option string) (field : string) : bool :=
  match f with
  | Some s => if String.eqb s EmptyString then true else String.eqb s field
  | None => true
  end.

(** [{ $match: query }] with [query = { published: true, type?, difficulty? }] *)
Definition query_matches (body : StartBody) (g : Game) : bool :=
  g_published g && filter_matches (sb_type body) (g_type g)
                && filter_matches (sb_difficulty body) (g_difficulty g).

(** [{ $sample: { size } }]: draws without replacement, the draws given by
    the random stream [rng]; stops when the pool is exhausted. *)
Fixpoint sample (size : nat) (pool : list ObjectId) (rng : nat → nat) (i : nat)
  : list ObjectId :=
  match size with
  | O => []
  | S size' =>
      match pool with
      | [] => []
      | _ :: _ =>
          let j := (rng i mod length pool)%nat in
          match pool !! j with
          | Some q => q :: sample size' (delete j pool) rng (S i)
          | None => []
          end
      end
  end.

(** The aggregate pipeline [$match, $sample, $project {_id}]. *)
Definition Game_aggregate (gs : list Game) (body : StartBody) (rng : nat → nat)
  : list ObjectId :=
  sample TIME_ATTACK_QUESTION_COUNT
         (g_id <$> List.filter (query_matches body) gs) rng 0.

(** [TimeAttackSession.create({ studentId, questions })] with the schema
    defaults. *)
Definition new_session (user : ObjectId) (qs : list ObjectId) (now : Z)
  : TimeAttackSession :=
  mkSession user qs 0 0 now None InProgress.

Definition time_attack_start (db : Db) (user : ObjectId) (body : StartBody)
    (rng : nat → nat) (now : Z) : Db * Response :=
  let qs := Game_aggregate (games db) body rng in
  if (length qs <? 1)%nat then
    (db, Failure 404 "Not enough questions available to start a Time Attack session.")
  else
    let session := new_session user qs now in
    let sid := length (sessions db) in
    let db' := mkDb (games db) (sessions db ++ [session])
                    (submissions db) (leaderboard db) in
    (db', StartOk sid (head (questions session) ≫= Game_findById (games db))).

(** ** [POST /api/time-attack/submit] *)

(** [const { sessionId, isCorrect } = req.body]: a missing property reads
    as [JUndefined]. *)
Record SubmitBody := mkSubmitBody {
  sessionId : JsVal;
  isCorrect : JsVal
}.

Section Submit.

(** Mongoose casts the [sessionId] it is given to an ObjectId before it
    queries; a value that does not cast makes [findById] throw, which
    the handler's [catch] turns into a 500. *)
Variable castObjectId : JsVal → option ObjectId.

Definition time_attack_submit (db : Db) (user : ObjectId) (body : SubmitBody)
    (now : Z) : Db * Response :=
  if negb (truthy (sessionId body)) || is_undefined (isCorrect body) then
    (db, Failure 400 "sessionId and isCorrect are required")
  else
    match castObjectId (sessionId body) with
    | None => (db, Failure 500 "Server error submitting answer")
    | Some sid =>
        match sessions db !! sid with
        | None => (db, Failure 404 "Active session not found")
        | Some session =>
            if negb (Nat.eqb (studentId session) user)
               || negb (bool_decide (status session = InProgress)) then
              (db, Failure 404 "Active session not found")
            else
              let score' :=
                if truthy (isCorrect body) then score session + 10
                else score session in
              (* gameId is required: a missing one fails validation *)
              match questions session !! currentQuestionIndex session with
              | None => (db, Failure 500 "Server error submitting answer")
              | Some gid =>
                  let subs' := submissions db ++
                    [mkGameSubmission gid user (truthy (isCorrect body)) now] in
                  let idx' := S (currentQuestionIndex session) in
                  if (length (questions session) <=? idx')%nat then
                    let timeTakenMs := now - startTime session in
                    let session' :=
                      mkSession (studentId session) (questions session) idx'
                                score' (startTime session) (Some now) Completed in
                    (mkDb (games db) (<[sid := session']> (sessions db)) subs'
                          (leaderboard db ++ [mkEntry user score' timeTakenMs now]),
                     SubmitCompleted score' timeTakenMs)
                  else
                    let session' :=
                      mkSession (studentId session) (questions session) idx'
                                score' (startTime session) (endTime session)
                                (status session) in
                    (mkDb (games db) (<[sid := session']> (sessions db)) subs'
                          (leaderboard db),
                     SubmitInProgress
                       (questions session !! idx' ≫= Game_findById (games db)))
              end
        end
    end.

End Submit.

(** ** [GET /api/leaderboard/time-attack] *)

(** The order of [.sort({ score: -1, timeTakenMs: 1 })]: higher score
    first, then shorter time. *)
Definition ranks_before (a b : LeaderboardEntry) : Prop :=
  lb_score b < lb_score a ∨
  (lb_score a = lb_score b ∧ lb_timeTakenMs a ≤ lb_timeTakenMs b).

Global Instance ranks_before_dec : RelDecision ranks_before.
Proof. intros a b. unfold ranks_before. apply _. Defined.

Definition leaderboard_time_attack (db : Db) : Db * Response :=
  (db, LeaderboardOk (take 10 (merge_sort ranks_before (leaderboard db)))).

(** ** Request sequences *)

Section Server.

Variable castObjectId : JsVal → option ObjectId.

(** One request handled to completion; [CatalogChange] stands for the
    game endpoints, which replace the catalog and touch nothing else. *)
Inductive Request :=
| Start (user : ObjectId) (body : StartBody) (rng : nat → nat) (now : Z)
| Submit (user : ObjectId) (body : SubmitBody) (now : Z)
| GetLeaderboard
| CatalogChange (gs : list Game).

Definition handle (db : Db) (req : Request) : Db * Response :=
  match req with
  | Start user body rng now => time_attack_start db user body rng now
  | Submit user body now => time_attack_submit castObjectId db user body now
  | GetLeaderboard => leaderboard_time_attack db
  | CatalogChange gs =>
      (mkDb gs (sessions db) (submissions db) (leaderboard db), GamesOk)
  end.

Definition run (db : Db) (reqs : list Request) : Db :=
  fold_left (fun d r => fst (handle d r)) reqs db.

(** The submits of one play-through: [answers] are the [isCorrect]
    values with the time each arrives; the last response is returned. *)
Fixpoint play (db : Db) (user : ObjectId) (sid : JsVal)
    (answers : list (JsVal * Z)) (last : Response) : Db * Response :=
  match answers with
  | [] => (db, last)
  | (ic, now) :: rest =>
      let '(db', resp) :=
        time_attack_submit castObjectId db user (mkSubmitBody sid ic) now in
      play db' user sid rest resp
  end.

(** Whether session [sid] is stored as completed. *)
Definition is_completed (sid : ObjectId) (db : Db) : bool :=
  match sessions db !! sid with
  | Some s => bool_decide (status s = Completed)
  | None => false
  end.

(** How many times session [sid] goes from not completed to completed
    while [reqs] are handled. *)
Fixpoint completions (sid : ObjectId) (db : Db) (reqs : list Request) : nat :=
  match reqs with
  | [] => 0
  | r :: rest =>
      let db' := fst (handle db r) in
      ((if is_completed sid db' && negb (is_completed sid db) then 1 else 0)
       + completions sid db' rest)%nat
  end.

End Server.

(** A response that is not an error. *)
Definition accepted (r : Response) : bool :=
  match r with Failure _ _ => false | _ => true end.

Definition empty_db (gs : list Game) : Db := mkDb gs [] [] [].

(** What every stored session satisfies. *)
Definition session_wf (s : TimeAttackSession) : Prop :=
  (currentQuestionIndex s ≤ length (questions s))%nat ∧
  (status s = Completed ↔ currentQuestionIndex s = length (questions s)).

Definition db_wf (db : Db) : Prop := Forall session_wf (sessions db).

(** The score a session has after one more answer. *)
Definition award (ic : JsVal) (s : TimeAttackSession) : Z :=
  if truthy ic then score s + 10 else score s.

(** The session after an accepted answer at time [now]. *)
Definition advanced (ic : JsVal) (now : Z) (s : TimeAttackSession)
  : TimeAttackSession :=
  if (length (questions s) <=? S (currentQuestionIndex s))%nat then
    mkSession (studentId s) (questions s) (S (currentQuestionIndex s))
              (award ic s) (startTime s) (Some now) Completed
  else
    mkSession (studentId s) (questions s) (S (currentQuestionIndex s))
              (award ic s) (startTime s) (endTime s) (status s).

(** How many of the answers of a play-through count as correct, and when
    the last one arrived ([d] if there is none). *)
Definition count_correct (answers : list (JsVal * Z)) : nat :=
  length (List.filter (fun a => truthy (fst a)) answers).

Fixpoint last_time (answers : list (JsVal * Z)) (d : Z) : Z :=
  match answers with
  | [] => d
  | (_, t) :: rest => last_time rest t
  end.

(** A catalog for worked examples: three published quizzes and a draft. *)
Definition demo_games : list Game :=
  [ mkGame 100 "Joins" "quiz" "easy" "pick the join" true 7;
    mkGame 101 "Keys" "quiz" "easy" "pick the key" true 7;
    mkGame 102 "Draft" "quiz" "hard" "not yet visible" false 7;
    mkGame 103 "Pointers" "quiz" "hard" "pick the pointer" true 8 ].

(** A cast for worked examples: the id [n] is written as a string of
    [n + 1] characters. *)
Definition unary_id (v : JsVal) : option ObjectId :=
  match v with
  | JStr s =>
      if String.eqb s EmptyString then None
      else Some (String.length s - 1)%nat
  | _ => None
  end.

(** ** Client: numbers and stored results *)

(** A number that the engine rounds to an integer, or [None] when the
    computation gives NaN or an infinity (both are stored as [null]). *)
Abbreviation JsInt := (option Z).

(** [a / b] on integers, as far as the engines divide: by a nonzero
    denominator the quotient is taken in [Q]. *)
Definition js_div (a b : Z) : option Q :=
  if (b =? 0)%Z then None else Some (inject_Z a / inject_Z b)%Q.

(** *** Doubles

    A JavaScript number is an IEEE 754 double: every result of [/] and
    [*] is the exact result rounded to 53 significant bits, to the nearest
    such number and, at a tie, to the one with the even significand.  The
    exponent range is not modelled: no result here is as large as 2^1024
    or, apart from 0, as small as 2^-1022; [is_double] says of a given
    number that it is a double. *)






(** [game.duration || dflt]: a missing, NaN or zero duration gives the
    default. *)
Definition duration_or (d : option Z) (dflt : Z) : Z :=
  match d with
  | Some z => if (z =? 0)%Z then dflt else z
  | None => dflt
  end.

(** One entry of [student_activities]; the fields naming the player and
    the entry itself are left out. *)
Record Activity := mkActivity {
  act_gameId : string;
  act_gameType : string;
  act_score : JsInt;
  act_rawScore : JsInt;
  act_timeTaken : Z
}.

(** The local storage the engine works on. *)
Record Browser := mkBrowser {
  activities : list Activity;
  doubleXP : bool
}.

(** [saveResult(game, score, totalPoints, startTime)] at time [now] *)
Definition saveResult (b : Browser) (gameId gameType : string) (score : JsInt)
    (totalPoints : Z) (startTime now : Z) : Browser :=
  let timeTaken := (now - startTime) / 1000 in
  let percentage :=
    s ← score; q ← js_div s totalPoints; Some (Math_round (q * 100)%Q) in
  let rawScore := if doubleXP b then (fun s => s * 2) <$> score else score in
  mkBrowser (activities b ++
               [mkActivity gameId gameType percentage rawScore timeTaken])
            (doubleXP b).

(** ** Client: the countdown *)

Section Timer.

(** The page a game keeps, and what it does to finish. *)
Context {Page : Type}.
Variable onFinish : Z → Page → Page.

(** A page with the countdown of [startTimer]: the seconds left and
    whether the interval of [timerInterval] is still pending. *)
Record Timed := mkTimed {
  timer : Z;
  timerInterval : bool;
  page : Page
}.

(** [startTimer(durationMinutes, selector, onFinish)] *)
Definition startTimer (durationMinutes : Z) (p : Page) : Timed :=
  mkTimed (durationMinutes * 60) true p.

(** The interval callback, run at time [now]; a cleared interval does
    not call back. *)
Definition tick (now : Z) (t : Timed) : Timed :=
  if timerInterval t then
    let timer' := timer t - 1 in
    if timer' <? 0 then mkTimed timer' false (onFinish now (page t))
    else mkTimed timer' true (page t)
  else t.

Definition ticks (nows : list Z) (t : Timed) : Timed :=
  fold_left (fun t now => tick now t) nows t.

(** The student's own submit: the page's check function is called and
    nothing is done to the interval. *)
Definition submit_click (now : Z) (t : Timed) : Timed :=
  mkTimed (timer t) (timerInterval t) (onFinish now (page t)).

End Timer.

Arguments Timed : clear implicits.

(** ** Client: unjumble *)

Record UnjumbleGame := mkUnjumbleGame {
  ug_id : string;
  ug_type : string;
  ug_lines : option (list string);
  ug_totalPoints : Z;
  ug_duration : option Z
}.

Inductive Screen :=
| Playing
| ShowResult (score : JsInt) (totalPoints : Z).

Record UnjumblePage := mkUnjumblePage {
  up_game : UnjumbleGame;
  shuffledLines : list (string * nat);
  selectedIdx : option nat;
  up_startTime : Z;
  up_browser : Browser;
  up_screen : Screen
}.

(** [shuffledLines.forEach((line, idx) => ...)] counting the lines whose
    [originalIndex] is [idx]. *)
Fixpoint lines_in_place (ls : list (string * nat)) (idx : nat) : nat :=
  match ls with
  | [] => 0
  | line :: rest =>
      ((if Nat.eqb (snd line) idx then 1 else 0) + lines_in_place rest (S idx))%nat
  end.

Definition checkUnjumble (now : Z) (p : UnjumblePage) : UnjumblePage :=
  let game := up_game p in
  let correct := lines_in_place (shuffledLines p) 0 in
  let accuracy :=
    js_div (Z.of_nat correct)
           (match ug_lines game with
            | Some ls => Z.of_nat (length ls)
            | None => 1
            end) in
  let score :=
    (fun a => Math_round (a * inject_Z (ug_totalPoints game))%Q) <$> accuracy in
  mkUnjumblePage game (shuffledLines p) (selectedIdx p) (up_startTime p)
    (saveResult (up_browser p) (ug_id game) (ug_type game) score
                (ug_totalPoints game) (up_startTime p) now)
    (ShowResult score (ug_totalPoints game)).

(** [playUnjumble(game, container)] at time [now]; [shuffled] is the order
    the random sort left the lines in. *)
Definition playUnjumble (game : UnjumbleGame) (shuffled : list (string * nat))
    (b : Browser) (now : Z) : Timed UnjumblePage :=
  startTimer (duration_or (ug_duration game) 10)
             (mkUnjumblePage game shuffled None now b Playing).

(** ** Client: quiz *)

(** One question card of the authoring form, as [FormData] reads it; one
    of the four radio buttons is required, so [qc_correct] is the number
    [parseInt] makes of its value, and [qc_points] is [None] when the
    points field does not parse. *)
Record QuestionCard := mkQuestionCard {
  qc_text : string;
  qc_opt0 : string;
  qc_opt1 : string;
  qc_opt2 : string;
  qc_opt3 : string;
  qc_correct : Z;
  qc_points : option Z
}.

(** A [parseInt] result as [JSON.stringify] stores it. *)
Definition json_number (n : option Z) : JsVal :=
  match n with Some z => JNum z | None => JNull end.

(** The question object the quiz form builds from a card. *)
Definition parseQuestion (c : QuestionCard) : JsVal :=
  JObj [ ("text", JStr (qc_text c));
         ("options",
          JArr (JStr <$> List.filter (fun o => negb (String.eqb o EmptyString))
                           [qc_opt0 c; qc_opt1 c; qc_opt2 c; qc_opt3 c]));
         ("correctIndex", JNum (qc_correct c));
         ("points", json_number (qc_points c)) ].

(** The quiz form's submit handler: [None] when it alerts and returns. *)
Definition quizForm_submit (id title description : string) (duration : option Z)
    (cards : list QuestionCard) (totalPoints : option Z) (createdAt : string)
  : option JsVal :=
  let parsedQuestions := parseQuestion <$> cards in
  if (length parsedQuestions =? 0)%nat then None
  else Some (JObj [ ("id", JStr id);
                    ("type", JStr "quiz");
                    ("title", JStr title);
                    ("description", JStr description);
                    ("duration", json_number duration);
                    ("questions", JArr parsedQuestions);
                    ("totalPoints", json_number totalPoints);
                    ("createdAt", JStr createdAt);
                    ("status", JStr "active") ]).

(** [game.questions || []] *)
Definition quiz_questions (game : JsVal) : list JsVal :=
  match get_prop game "questions" with
  | JArr qs => qs
  | _ => []
  end.

Record QuizState := mkQuizState {
  qz_currentQuestionIndex : nat;
  qz_score : Z
}.

(** [window.handleAnswer(selectedIndex)]; [None] when the read of
    [q.correct] throws because there is no question left. *)
Definition handleAnswer (questions : list JsVal) (selectedIndex : Z)
    (st : QuizState) : option QuizState :=
  q ← questions !! qz_currentQuestionIndex st;
  Some (mkQuizState
          (S (qz_currentQuestionIndex st))
          (if num_strict_eq selectedIndex (get_prop q "correct")
           then qz_score st + 10 else qz_score st)).

(** [playQuiz] driven by the student's selections, up to the call of
    [finish], which reports [score] out of [questions.length * 10]. *)
Fixpoint playQuiz (questions : list JsVal) (selections : list Z)
    (st : QuizState) : option (Z * Z) :=
  if (length questions <=? qz_currentQuestionIndex st)%nat then
    Some (qz_score st, Z.of_nat (length questions) * 10)
  else
    match selections with
    | [] => None
    | sel :: rest =>
        st' ← handleAnswer questions sel st; playQuiz questions rest st'
    end.

(** ** Client: fill-in *)









(** ** Client: debug *)

(** A debug game as [publishGame] stores it; [dg_totalPoints] is the
    integer the form parsed. *)
Record DebugGame := mkDebugGame {
  dg_id : string;
  dg_perfectCode : string;
  dg_buggyCode : string;
  dg_totalPoints : Z;
  dg_duration : option Z
}.

(** Edit distance between two texts. *)
Fixpoint levenshtein (a : list Ascii.ascii) : list Ascii.ascii → nat :=
  match a with
  | [] => fun b => length b
  | x :: a' =>
      fix inner (b : list Ascii.ascii) : nat :=
        match b with
        | [] => S (length a')
        | y :: b' =>
            (S (levenshtein a' b) `min` S (inner b'))
              `min` ((if Ascii.eqb x y then 0 else 1) + levenshtein a' b')
        end
  end%nat.

(** Modelled from the spec: [calculateSimilarity] is called by
    [checkDebug] but defined in a file that is not among the sources.  The
    specification asks for a normalized edit-distance-style similarity in
    [0,100] that gives 100 on identical strings; this is the share of the
    longer text that needs no edit, in percent, rounded. *)
Definition calculateSimilarity (a b : string) : Z :=
  let la := String.list_ascii_of_string a in
  let lb := String.list_ascii_of_string b in
  let longer := (length la `max` length lb)%nat in
  match js_div (Z.of_nat (longer - levenshtein la lb)) (Z.of_nat longer) with
  | Some q => Math_round (q * 100)%Q
  | None => 100
  end.

(** [window.checkDebug()]: the similarity and the score it saves, or
    [None] when the editor is not loaded yet and it only alerts. *)
Definition checkDebug (game : DebugGame) (studentEditor : option string)
  : option (Z * Z) :=
  studentCode ← studentEditor;
  let perfectCode :=
    if String.eqb (dg_perfectCode game) EmptyString then EmptyString
    else dg_perfectCode game in
  let similarity := calculateSimilarity studentCode perfectCode in
  let score :=
    Math_round (inject_Z similarity / 100 * inject_Z (dg_totalPoints game))%Q in
  Some (similarity, score).

(** ** Counting over the store *)

(** The sum of the cursors of the stored sessions. *)
Definition cursor_total (ss : list TimeAttackSession) : nat :=
  sum_list (currentQuestionIndex <$> ss).

(** The number of stored sessions that are completed. *)
Definition completed_count (ss : list TimeAttackSession) : nat :=
  sum_list ((fun s => if bool_decide (status s = Completed) then 1 else 0)%nat
              <$> ss).

(** The clock reading a request is handled at, if it reads the clock. *)
Definition request_time (r : Request) : option Z :=
  match r with
  | Start _ _ _ now => Some now
  | Submit _ _ now => Some now
  | GetLeaderboard => None
  | CatalogChange _ => None
  end.

Definition clock_readings (reqs : list Request) : list Z :=
  omap request_time reqs.

(** What the score of a stored session satisfies. *)
Definition session_scored (s : TimeAttackSession) : Prop :=
  0 ≤ score s ≤ 10 * Z.of_nat (currentQuestionIndex s) ∧
  score s mod 10 = 0 ∧
  (1 ≤ length (questions s) ≤ TIME_ATTACK_QUESTION_COUNT)%nat.

(** What a leaderboard row satisfies. *)
Definition entry_scored (e : LeaderboardEntry) : Prop :=
  0 ≤ lb_score e ≤ 10 * Z.of_nat TIME_ATTACK_QUESTION_COUNT ∧
  lb_score e mod 10 = 0.

(** The store as a whole. *)
Definition db_counted (db : Db) : Prop :=
  db_wf db ∧
  Forall session_scored (sessions db) ∧
  Forall entry_scored (leaderboard db) ∧
  length (leaderboard db) = completed_count (sessions db) ∧
  length (submissions db) = cursor_total (sessions db).

(** ** Server: the game endpoints *)

(** What [authMiddleware] leaves in [req.user]: the verified token. *)
Record TokenPayload := mkTokenPayload {
  tk_sub : ObjectId;
  tk_role : string;
  tk_email : string;
  tk_name : string
}.

(** A string field of a JSON body: absent, or the string sent.  [!f] holds
    for an absent field and for the empty string. *)
Definition present (f : option string) : bool :=
  match f with
  | Some s => negb (String.eqb s EmptyString)
  | None => false
  end.

(** The body of [POST /api/games]. *)
Record GameBody := mkGameBody {
  gb_title : option string;
  gb_type : option string;
  gb_difficulty : option string;
  gb_brief : option string
}.

Inductive GameReply :=
| GameCreated (g : Game)
| GamePublished (g : Game)
| GameFailure (code : nat) (message : string).

(** The id a new game document gets: one that no stored game has. *)
Definition fresh_game_id (gs : list Game) : ObjectId :=
  S (max_list (g_id <$> gs)).

(** [POST /api/games], past [authMiddleware]. *)
Definition games_create (db : Db) (user : TokenPayload) (body : GameBody)
  : Db * GameReply :=
  if negb (present (gb_title body)) || negb (present (gb_type body))
     || negb (present (gb_difficulty body)) || negb (present (gb_brief body))
  then (db, GameFailure 400 "All game fields are required")
  else if negb (String.eqb (tk_role user) "admin")
  then (db, GameFailure 403 "Only admins can create games")
  else
    let game := mkGame (fresh_game_id (games db))
                       (default EmptyString (gb_title body))
                       (default EmptyString (gb_type body))
                       (default EmptyString (gb_difficulty body))
                       (default EmptyString (gb_brief body))
                       false (tk_sub user) in
    (mkDb (games db ++ [game]) (sessions db) (submissions db) (leaderboard db),
     GameCreated game).

(** [game.published = true; game.save()] on the document [findById]
    returned: the first one with that id. *)
Definition publish (g : Game) : Game :=
  mkGame (g_id g) (g_title g) (g_type g) (g_difficulty g) (g_brief g) true
         (g_createdBy g).

Fixpoint save_published (gid : ObjectId) (gs : list Game) : list Game :=
  match gs with
  | [] => []
  | g :: rest =>
      if Nat.eqb (g_id g) gid then publish g :: rest
      else g :: save_published gid rest
  end.

Section Publish.

Variable castObjectId : JsVal → option ObjectId.

(** [PUT /api/games/:id/publish], past [authMiddleware]; [id] is
    [req.params.id]. *)
Definition games_publish (db : Db) (user : TokenPayload) (id : string)
  : Db * GameReply :=
  if negb (String.eqb (tk_role user) "admin")
  then (db, GameFailure 403 "Only admins can publish games")
  else
    match castObjectId (JStr id) with
    | None => (db, GameFailure 500 "Server error")
    | Some gid =>
        match List.find (fun g => Nat.eqb (g_id g) gid) (games db) with
        | None => (db, GameFailure 404 "Game not found")
        | Some game =>
            if negb (Nat.eqb (g_createdBy game) (tk_sub user))
            then (db, GameFailure 403 "You can only publish your own games")
            else
              (mkDb (save_published gid (games db)) (sessions db)
                    (submissions db) (leaderboard db),
               GamePublished (publish game))
        end
    end.

End Publish.

(** ** Server: accounts *)

(** Strings are read as sequences of code units; the campus patterns hold
    ASCII characters only, so the [i] flag of the two regular expressions
    folds the case of ASCII letters and of nothing else. *)
Definition lower_ascii (c : Ascii.ascii) : Ascii.ascii :=
  let n := Ascii.nat_of_ascii c in
  if (65 <=? n)%nat && (n <=? 90)%nat then Ascii.ascii_of_nat (n + 32) else c.

Fixpoint prefix_ci (p s : list Ascii.ascii) : bool :=
  match p, s with
  | [], _ => true
  | _ :: _, [] => false
  | a :: p', b :: s' =>
      Ascii.eqb (lower_ascii a) (lower_ascii b) && prefix_ci p' s'
  end.

(** Whether two patterns agree, case folded, wherever both have a
    character. *)
Fixpoint agree_ci (p q : list Ascii.ascii) : bool :=
  match p, q with
  | a :: p', b :: q' =>
      Ascii.eqb (lower_ascii a) (lower_ascii b) && agree_ci p' q'
  | _, _ => true
  end.

(** [/<suffix>$/i.test(s)] for a literal suffix. *)
Definition ends_with_ci (suffix s : string) : bool :=
  prefix_ci (rev (String.list_ascii_of_string suffix))
            (rev (String.list_ascii_of_string s)).

Definition STUDENT_EMAIL_REGEX (email : string) : bool :=
  ends_with_ci ".mca25@cmrit.ac.in" email.

Definition ADMIN_EMAIL_REGEX (email : string) : bool :=
  ends_with_ci ".mca@cmrit.ac.in" email.

Definition validateEmail (email role : string) : bool :=
  if String.eqb email EmptyString then false
  else if String.eqb role "admin" then ADMIN_EMAIL_REGEX email
  else if String.eqb role "student" then STUDENT_EMAIL_REGEX email
  else STUDENT_EMAIL_REGEX email || ADMIN_EMAIL_REGEX email.

(** [password && password.length >= 6] *)
Definition validatePassword (password : string) : bool :=
  negb (String.eqb password EmptyString) && (6 <=? String.length password)%nat.

(** [["student", "admin"].includes(role) ? role : "student"] *)
Definition sanitizeRole (role : option string) : string :=
  match role with
  | Some r =>
      if String.eqb r "student" || String.eqb r "admin" then r else "student"
  | None => "student"
  end.

(** [userSchema]; the document's [_id] is its position. *)
Record User := mkUser {
  u_name : string;
  u_email : string;
  u_password : string;
  u_role : string
}.

(** [passwordResetSchema] with the [createdAt] stamp. *)
Record PasswordResetRequest := mkResetRequest {
  pr_email : string;
  pr_codeHash : string;
  pr_expiresAt : Z;
  pr_used : bool;
  pr_createdAt : Z
}.

(** [adminNotificationSchema], as the reset handler fills it. *)
Record AdminNotification := mkAdminNotification {
  an_message : string;
  an_email : string;
  an_resetAt : Z
}.

Record Accounts := mkAccounts {
  users : list User;
  resetRequests : list PasswordResetRequest;
  adminNotifications : list AdminNotification
}.

(** [{ name, email, role }] as sent back with the cookie. *)
Record UserView := mkUserView {
  uv_name : string;
  uv_email : string;
  uv_role : string
}.

Inductive AuthReply :=
| SignedIn (code : nat) (token : string) (user : UserView)
| Message (code : nat) (message : string).

Record SignupBody := mkSignupBody {
  su_name : option string;
  su_email : option string;
  su_password : option string;
  su_role : option string
}.

Record LoginBody := mkLoginBody {
  li_email : option string;
  li_password : option string;
  li_role : option string
}.

Record ResetBody := mkResetBody {
  rs_email : option string;
  rs_code : option string;
  rs_newPassword : option string
}.

(** Whether a reset request matches
    [{ email, used: false, expiresAt: { $gt: now } }]. *)
Definition pending (email : string) (now : Z) (r : PasswordResetRequest)
  : bool :=
  String.eqb (pr_email r) email && negb (pr_used r) && (now <? pr_expiresAt r).

(** [findOne(...).sort({ createdAt: -1 })]: the matching request created
    last, with its position; [best] is the choice so far. *)
Fixpoint latest_pending (email : string) (now : Z)
    (rs : list PasswordResetRequest) (i : nat)
    (best : option (nat * PasswordResetRequest))
  : option (nat * PasswordResetRequest) :=
  match rs with
  | [] => best
  | r :: rest =>
      let best' :=
        if pending email now r then
          match best with
          | Some (_, b) =>
              if pr_createdAt b <=? pr_createdAt r then Some (i, r) else best
          | None => Some (i, r)
          end
        else best in
      latest_pending email now rest (S i) best'
  end.

Section Accounts.

(** The library calls: [String.prototype.toLowerCase], [bcrypt.hash] with
    the salt it draws, [bcrypt.compare], and [jwt.sign] on the fields
    [signToken] reads (the user's id and the user), at the time of the
    call, which [jwt.sign] stamps into the token together with the expiry
    seven days later. *)
Variable toLowerCase : string → string.
Variable bcrypt_hash : string → nat → string.
Variable bcrypt_compare : string → string → bool.
Variable signToken : Z → ObjectId → User → string.

Definition user_view (u : User) : UserView :=
  mkUserView (u_name u) (u_email u) (u_role u).

(** [POST /api/signup] at time [now]; [salt] is what [bcrypt.hash]
    draws. *)
Definition signup (a : Accounts) (body : SignupBody) (salt : nat) (now : Z)
  : Accounts * AuthReply :=
  if negb (present (su_name body)) || negb (present (su_email body))
     || negb (present (su_password body))
  then (a, Message 400 "All fields are required")
  else
    let name := default EmptyString (su_name body) in
    let email := default EmptyString (su_email body) in
    let password := default EmptyString (su_password body) in
    let safeRole := sanitizeRole (su_role body) in
    if negb (validateEmail email safeRole)
    then (a, Message 400 "Use your campus email")
    else if negb (validatePassword password)
    then (a, Message 400 "Password must be at least 6 characters")
    else
      let hashed := bcrypt_hash password salt in
      let user := mkUser name (toLowerCase email) hashed safeRole in
      (* the unique index on email: error code 11000 *)
      if bool_decide (toLowerCase email ∈ u_email <$> users a)
      then (a, Message 409 "Email already registered")
      else
        (mkAccounts (users a ++ [user]) (resetRequests a)
                    (adminNotifications a),
         SignedIn 201 (signToken now (length (users a)) user)
                  (user_view user)).

(** [POST /api/login] at time [now] *)
Definition login (a : Accounts) (body : LoginBody) (now : Z) : AuthReply :=
  let safeRole := sanitizeRole (li_role body) in
  if negb (present (li_email body)) || negb (present (li_password body))
  then Message 400 "Email and password required"
  else
    let email := default EmptyString (li_email body) in
    let password := default EmptyString (li_password body) in
    if negb (validateEmail email safeRole)
    then Message 400 "Use your campus email"
    else
      match list_find (fun u => u_email u = toLowerCase email
                                ∧ u_role u = safeRole) (users a) with
      | None => Message 401 "Invalid credentials"
      | Some (uid, user) =>
          if bcrypt_compare password (u_password user)
          then SignedIn 200 (signToken now uid user) (user_view user)
          else Message 401 "Invalid credentials"
      end.

(** [POST /api/password/forgot] at time [now]; [verificationCode] is the
    string of the number drawn, [sent] whether the mail went out. *)
Definition password_forgot (a : Accounts) (email : option string)
    (verificationCode : string) (salt : nat) (sent : bool) (now : Z)
  : Accounts * AuthReply :=
  if negb (present email) then (a, Message 400 "Email is required")
  else
    match list_find (fun u => u_email u = toLowerCase (default EmptyString email))
                    (users a) with
    | None => (a, Message 404 "No account found for this email")
    | Some (_, user) =>
        let codeHash := bcrypt_hash verificationCode salt in
        (mkAccounts (users a)
                    (resetRequests a ++
                       [mkResetRequest (u_email user) codeHash
                                       (now + 10 * 60 * 1000) false now])
                    (adminNotifications a),
         Message 200 (if sent then "Password reset code sent to your email."
                      else "Password reset code sent. Please check your email (console log in dev)."))
    end.

(** [POST /api/password/reset] at time [now] *)
Definition password_reset (a : Accounts) (body : ResetBody) (salt : nat)
    (now : Z) : Accounts * AuthReply :=
  if negb (present (rs_email body)) || negb (present (rs_code body))
     || negb (present (rs_newPassword body))
  then (a, Message 400 "Email, code, and new password are required")
  else
    let email := default EmptyString (rs_email body) in
    let code := default EmptyString (rs_code body) in
    let newPassword := default EmptyString (rs_newPassword body) in
    if negb (validatePassword newPassword)
    then (a, Message 400 "Password must be at least 6 characters")
    else
      match latest_pending (toLowerCase email) now (resetRequests a) 0 None with
      | None => (a, Message 400 "No valid reset request found")
      | Some (ri, requestRecord) =>
          if negb (bcrypt_compare code (pr_codeHash requestRecord))
          then (a, Message 400 "Invalid verification code")
          else
            match list_find (fun u => u_email u = toLowerCase email)
                            (users a) with
            | None => (a, Message 404 "User not found")
            | Some (ui, user) =>
                let user' :=
                  mkUser (u_name user) (u_email user)
                         (bcrypt_hash newPassword salt) (u_role user) in
                let requestRecord' :=
                  mkResetRequest (pr_email requestRecord)
                                 (pr_codeHash requestRecord)
                                 (pr_expiresAt requestRecord) true
                                 (pr_createdAt requestRecord) in
                (mkAccounts (<[ui := user']> (users a))
                            (<[ri := requestRecord']> (resetRequests a))
                            (adminNotifications a ++
                               [mkAdminNotification "Password reset completed"
                                                    (u_email user) now]),
                 Message 200 "Password updated successfully")
            end
      end.

(** The account requests, one handled at a time. *)
Inductive AuthRequest :=
| Signup (body : SignupBody) (salt : nat) (now : Z)
| Login (body : LoginBody) (now : Z)
| Forgot (email : option string) (verificationCode : string) (salt : nat)
         (sent : bool) (now : Z)
| Reset (body : ResetBody) (salt : nat) (now : Z).

Definition auth_handle (a : Accounts) (req : AuthRequest)
  : Accounts * AuthReply :=
  match req with
  | Signup body salt now => signup a body salt now
  | Login body now => (a, login a body now)
  | Forgot email code salt sent now => password_forgot a email code salt sent now
  | Reset body salt now => password_reset a body salt now
  end.

Definition auth_run (a : Accounts) (reqs : list AuthRequest) : Accounts :=
  fold_left (fun a r => fst (auth_handle a r)) reqs a.

End Accounts.

Definition no_accounts : Accounts := mkAccounts [] [] [].

(** What every stored account and reset request satisfies. *)
Definition user_wf (toLowerCase : string → string) (u : User) : Prop :=
  (u_role u = "student" ∨ u_role u = "admin") ∧
  ∃ e, u_email u = toLowerCase e ∧ validateEmail e (u_role u) = true.

Definition request_wf (a : Accounts) (r : PasswordResetRequest) : Prop :=
  pr_email r ∈ u_email <$> users a ∧
  pr_expiresAt r = pr_createdAt r + 600000.

Definition accounts_wf (toLowerCase : string → string) (a : Accounts) : Prop :=
  NoDup (u_email <$> users a) ∧
  Forall (user_wf toLowerCase) (users a) ∧
  Forall (request_wf a) (resetRequests a).

(** ** Server: material statistics *)

(** [materialSchema], the fields the statistics read. *)
Record Material := mkMaterial {
  m_title : string;
  m_type : string;
  m_folder : string;
  m_downloads : option Z;
  m_createdAt : Z
}.

(** [m.downloads || 0] *)
Definition downloads_or_0 (m : Material) : Z :=
  default 0 (m_downloads m).

(** [Array.prototype.sort(cmp)]: a stable sort by a comparator whose sign
    orders the elements. *)
Fixpoint sort_insert {A} (cmp : A → A → Z) (x : A) (l : list A) : list A :=
  match l with
  | [] => [x]
  | y :: l' =>
      if cmp x y <=? 0 then x :: y :: l' else y :: sort_insert cmp x l'
  end.

Definition js_sort {A} (cmp : A → A → Z) (l : list A) : list A :=
  foldr (sort_insert cmp) [] l.

(** What a property of the [byType] or [byFolder] object holds: a count,
    or the string that [+ 1] makes of a value that is not a number. *)
Inductive Tally :=
| Count (n : nat)
| Text (s : string).

(** The property names a plain object [{}] inherits from
    [Object.prototype]. *)
Definition Object_prototype : list string :=
  ["constructor"; "__defineGetter__"; "__defineSetter__"; "hasOwnProperty";
   "__lookupGetter__"; "__lookupSetter__"; "isPrototypeOf";
   "propertyIsEnumerable"; "toString"; "valueOf"; "__proto__";
   "toLocaleString"].

(** [{}[k] + 1] for an inherited [k] other than [__proto__]: the value is
    a built-in function, and [+] appends 1 to the text Node shows for
    it. *)
Definition inherited_plus_1 (k : string) : string :=
  String.append "function "
    (String.append (if String.eqb k "constructor" then "Object" else k)
                   "() { [native code] }1").

(** [obj[k] = (obj[k] || 0) + 1] on an object that started as [{}].  An
    own count is raised; an own string, unless empty, gets a 1 appended.
    A key that is not the object's own reads the inherited property, if
    [Object.prototype] has one: a function, which is not counted but
    turned into a string, or for [__proto__] the prototype itself, where
    the assignment of a string is then ignored. *)
Definition count_up (k : string) (obj : gmap string Tally)
  : gmap string Tally :=
  match obj !! k with
  | Some (Count n) => <[k := Count (S n)]> obj
  | Some (Text s) =>
      if String.eqb s EmptyString then <[k := Count 1]> obj
      else <[k := Text (String.append s "1")]> obj
  | None =>
      if String.eqb k "__proto__" then obj
      else if bool_decide (k ∈ Object_prototype)
      then <[k := Text (inherited_plus_1 k)]> obj
      else <[k := Count 1]> obj
  end.

Record MaterialStats := mkMaterialStats {
  totalMaterials : nat;
  totalDownloads : Z;
  byType : gmap string Tally;
  byFolder : gmap string Tally;
  mostDownloaded : list Material;
  recentUploads : list Material
}.

(** The [stats] object of [GET /api/materials/:subjectId/stats], from the
    materials the query found.  The second sort works on the array the
    first one left. *)
Definition material_stats (materials : list Material) : MaterialStats :=
  let by_downloads :=
    js_sort (fun a b => downloads_or_0 b - downloads_or_0 a) materials in
  let by_date :=
    js_sort (fun a b => m_createdAt b - m_createdAt a) by_downloads in
  mkMaterialStats
    (length materials)
    (foldl (fun sum m => sum + downloads_or_0 m) 0 materials)
    (foldl (fun obj m => count_up (m_type m) obj) ∅ by_date)
    (foldl (fun obj m => count_up (m_folder m) obj) ∅ by_date)
    (take 5 by_downloads)
    (take 5 by_date).

(** The sum of the counts an object holds. *)
Definition tally_weight (t : Tally) : nat :=
  match t with Count n => n | Text _ => 0%nat end.

Definition counts_total (obj : gmap string Tally) : nat :=
  map_fold (fun _ t acc => (tally_weight t + acc)%nat) 0%nat obj.

(** Under an inherited name nothing is counted. *)
Definition uncounted (obj : gmap string Tally) (k : string) : Prop :=
  obj !! k = None ∨ ∃ s, obj !! k = Some (Text s) ∧ s ≠ EmptyString.

(** Every property is a count. *)
Definition counts_only (obj : gmap string Tally) : Prop :=
  ∀ k t, obj !! k = Some t → ∃ n, t = Count n.

(** What the object holds under a key that [n] materials carry, when all
    of them are counted. *)
Definition tally_of (n : nat) : option Tally :=
  if (n =? 0)%nat then None else Some (Count n).

(** ** Server: choosing a port *)

(** What [app.listen(port)] leads to. *)
Inductive ListenOutcome := Listening | AddressInUse | OtherError.

Inductive ServerFate := Bound (port : Z) | Exited.

(** [attempt()] of [listenWithFallback], with [retries] = 10 - attempts
    left to make. *)
Fixpoint attempt (listen : Z → ListenOutcome) (port : Z) (retries : nat)
  : ServerFate :=
  match listen port with
  | Listening => Bound port
  | AddressInUse =>
      match retries with
      | S retries' => attempt listen (port + 1) retries'
      | O => Exited
      end
  | OtherError => Exited
  end.

(** [Number(preferred) || 8080] is the first port tried. *)
Definition listenWithFallback (listen : Z → ListenOutcome)
    (preferred : option Z) : ServerFate :=
  attempt listen (duration_or preferred 8080) 10.

(** ** Client: player statistics *)

(** [curr.rawScore || 0] *)
Definition raw_or_0 (a : Activity) : Z := default 0 (act_rawScore a).

(** [activities.reduce((acc, curr) => acc + (curr.rawScore || 0), 0)] *)
Definition total_xp (acts : list Activity) : Z :=
  foldl (fun acc curr => acc + raw_or_0 curr) 0 acts.





(** ** Client: sorter *)

Record SorterItem := mkSorterItem {
  si_name : string;
  si_category : string
}.

Record SorterGame := mkSorterGame {
  sg_id : string;
  sg_type : string;
  sg_items : option (list SorterItem);
  sg_categories : option (list string);
  sg_totalPoints : Z;
  sg_duration : option Z
}.

Record SorterState := mkSorterState {
  remainingItems : list SorterItem;
  so_score : Z;
  currentItem : option SorterItem
}.

(** [playSorter]: [remainingItems = [...(game.items || [])]] and
    [currentItem = remainingItems.pop()]. *)
Definition sorter_start (game : SorterGame) : SorterState :=
  let items := default [] (sg_items game) in
  mkSorterState (removelast items) 0 (last items).

(** [window.sortItem(cat)]; [None] when the read of
    [currentItem.category] throws because no item is left. *)
Definition sortItem (cat : string) (st : SorterState) : option SorterState :=
  item ← currentItem st;
  Some (mkSorterState
          (removelast (remainingItems st))
          (if String.eqb cat (si_category item)
           then so_score st + 10 else so_score st)
          (last (remainingItems st))).

(** The game driven by the categories the student clicks, up to the call
    of [finish], which reports the score; [None] while an item is still
    shown or after a throw. *)
Fixpoint playSorter (cats : list string) (st : SorterState) : option Z :=
  match currentItem st with
  | None => Some (so_score st)
  | Some _ =>
      match cats with
      | [] => None
      | cat :: rest => st' ← sortItem cat st; playSorter rest st'
      end
  end.

(** The clicks that put an item into its own category, the items taken
    in the order they are shown. *)
Fixpoint sorted_right (cats : list string) (shown : list SorterItem) : nat :=
  match cats, shown with
  | cat :: cats', item :: shown' =>
      ((if String.eqb cat (si_category item) then 1 else 0)
       + sorted_right cats' shown')%nat
  | _, _ => 0%nat
  end.

(** ** Client: SQL builder *)

Record SqlGame := mkSqlGame {
  qg_id : string;
  qg_type : string;
  qg_blocks : list string;
  qg_distractors : option (list string);
  qg_totalPoints : Z;
  qg_duration : option Z
}.

Record SqlState := mkSqlState {
  builtQuery : list string;
  availableBlocks : list string
}.

(** [playSQL]: nothing built yet; [shuffled] is the order the random sort
    left the blocks and distractors in. *)
Definition sql_start (shuffled : list string) : SqlState :=
  mkSqlState [] shuffled.

(** [window.addToQuery(block, idx)] *)
Definition addToQuery (block : string) (idx : nat) (st : SqlState) : SqlState :=
  mkSqlState (builtQuery st ++ [block]) (delete idx (availableBlocks st)).

Section SqlScreen.

(** Each available block carries its text inside an inline handler,
    [onclick="addToQuery('${block}', ${idx})"]: the browser decodes the
    attribute value and reads the text between the quotes as a string
    literal.  [inline_arg block] is the string the call then passes to
    [addToQuery]; it is [None] when the handler does not make this call (a
    quote in the block ends the literal or the attribute early). *)
Variable inline_arg : string → option string.

(** A click on the button of the available block at [idx]; [None] when
    there is no such button, and when the button's handler does not make
    the call, where no outcome is modelled. *)
Definition click_available (idx : nat) (st : SqlState) : option SqlState :=
  block ← availableBlocks st !! idx;
  arg ← inline_arg block;
  Some (addToQuery arg idx st).

(** [window.removeFromQuery(idx)], called by the button of the built
    block at [idx], whose handler carries the index only; [None] when
    there is no such button. *)
Definition removeFromQuery (idx : nat) (st : SqlState) : option SqlState :=
  block ← builtQuery st !! idx;
  Some (mkSqlState (delete idx (builtQuery st)) (availableBlocks st ++ [block])).

Inductive SqlClick := ClickAvailable (idx : nat) | ClickBuilt (idx : nat).

Definition sql_click (c : SqlClick) (st : SqlState) : option SqlState :=
  match c with
  | ClickAvailable idx => click_available idx st
  | ClickBuilt idx => removeFromQuery idx st
  end.

Fixpoint sql_clicks (cs : list SqlClick) (st : SqlState) : option SqlState :=
  match cs with
  | [] => Some st
  | c :: rest => st' ← sql_click c st; sql_clicks rest st'
  end.

End SqlScreen.

(** [builtQuery.filter((b, i) => b === game.blocks[i]).length] *)
Fixpoint tokens_in_place (built blocks : list string) : nat :=
  match built, blocks with
  | b :: built', c :: blocks' =>
      ((if String.eqb b c then 1 else 0) + tokens_in_place built' blocks')%nat
  | _, _ => 0%nat
  end.

(** The score [checkSQL] saves and shows. *)
Definition checkSQL (game : SqlGame) (st : SqlState) : JsInt :=
  let correctQuery := String.concat " " (qg_blocks game) in
  let userQuery := String.concat " " (builtQuery st) in
  if String.eqb correctQuery userQuery then Some (qg_totalPoints game)
  else
    q ← js_div (Z.of_nat (tokens_in_place (builtQuery st) (qg_blocks game)))
               (Z.of_nat (length (qg_blocks game)));
    Some (Math_round (q * inject_Z (qg_totalPoints game))%Q).

(** ** Client: placing words and moving lines *)








Section FillInScreen.

(** Each button of the word bank carries its word inside an inline
    handler, [onclick="useWord('${word}', ${idx})"]: the browser decodes
    the attribute value and reads the text between the quotes as a string
    literal.  [inline_arg word] is the string the call then passes to
    [useWord]; it is [None] when the handler does not make this call (a
    quote in the word ends the literal or the attribute early). *)
Variable inline_arg : string → option string.



End FillInScreen.


(** [[...(game.lines || [])].map((line, idx) => ({ text: line,
    originalIndex: idx }))] *)
Definition indexed_lines (game : UnjumbleGame) : list (string * nat) :=
  imap (fun idx line => (line, idx)) (default [] (ug_lines game)).

(** [window.moveLine(idx)], called by the button of the line at [idx];
    [None] when a swap names a line that is not there. *)
Definition moveLine (idx : nat) (p : UnjumblePage) : option UnjumblePage :=
  match selectedIdx p with
  | None =>
      Some (mkUnjumblePage (up_game p) (shuffledLines p) (Some idx)
                           (up_startTime p) (up_browser p) (up_screen p))
  | Some sel =>
      temp ← shuffledLines p !! sel;
      other ← shuffledLines p !! idx;
      Some (mkUnjumblePage (up_game p)
              (<[idx := temp]> (<[sel := other]> (shuffledLines p)))
              None (up_startTime p) (up_browser p) (up_screen p))
  end.

Fixpoint moveLines (idxs : list nat) (p : UnjumblePage) : option UnjumblePage :=
  match idxs with
  | [] => Some p
  | idx :: rest => p' ← moveLine idx p; moveLines rest p'
  end.

(** ** Client: what the quiz engine reads *)

(** [q.options] *)
Definition question_options (q : JsVal) : list JsVal :=
  match get_prop q "options" with
  | JArr opts => opts
  | _ => []
  end.

(** The selections that equal the [correct] property of their question. *)
Fixpoint answers_right (questions : list JsVal) (selections : list Z) : nat :=
  match questions, selections with
  | q :: questions', sel :: selections' =>
      ((if num_strict_eq sel (get_prop q "correct") then 1 else 0)
       + answers_right questions' selections')%nat
  | _, _ => 0%nat
  end.

(** ** Client: the lobby *)






(** ** Worked examples: inline handlers *)

(** Characters that an attribute value and a single-quoted string literal
    both leave as they are: printable ASCII apart from the two quotes, the
    backslash and the ampersand. *)
Definition plain_char (c : Ascii.ascii) : bool :=
  let n := Ascii.nat_of_ascii c in
  (32 <=? n)%nat && (n <=? 126)%nat
  && negb (n =? 34)%nat && negb (n =? 38)%nat
  && negb (n =? 39)%nat && negb (n =? 92)%nat.

(** A stand-in for the browser: text of plain characters is passed on as
    it is, and any other text counts as not making the call. *)
Definition demo_inline (text : string) : option string :=
  if forallb plain_char (String.list_ascii_of_string text) then Some text
  else None.

(** ** Worked examples: library calls for the accounts *)

(** Lower-casing of the ASCII letters. *)
Definition demo_lower (s : string) : string :=
  String.string_of_list_ascii (lower_ascii <$> String.list_ascii_of_string s).

(** A stand-in for [bcrypt.hash] and [bcrypt.compare]: the hash shows the
    password, and the salt is not used. *)
Definition demo_hash (password : string) (salt : nat) : string :=
  String.append "$" password.

Definition demo_compare (password hash : string) : bool :=
  String.eqb hash (String.append "$" password).

(** A stand-in for [jwt.sign]: the token is the user's email followed by
    one [+] for every second of the signing time. *)
Definition demo_token (now : Z) (uid : ObjectId) (u : User) : string :=
  String.append (u_email u)
                (String.concat EmptyString
                               (replicate (Z.to_nat (now / 1000)) "+")).

Definition demo_user : User :=
  mkUser "Asha" "asha.mca25@cmrit.ac.in" "$secret1" "student".


(** ** Worked examples: a play-through on the demo catalog *)

(** One student starts a session on the demo catalog at time 1000. *)
Definition demo_start : Request :=
  Start 1 (mkStartBody None None) (fun _ => 0%nat) 1000.

(** The id of the first session, as the client sends it back. *)
Definition demo_sid : JsVal := JStr "a".

Definition demo_answers : list (JsVal * Z) :=
  [(JBool true, 2000); (JStr "yes", 3000); (JNum 1, 4500)].

Definition demo_play : list Request :=
  demo_start ::
  map (fun a => Submit 1 (mkSubmitBody demo_sid (fst a)) (snd a)) demo_answers.

(** * Properties of the server *)

Section ServerFacts.

Variable castObjectId : JsVal → option ObjectId.

Local Abbreviation submit := (time_attack_submit castObjectId).

Lemma submit_failure db user body now c m :
  (submit db user body now).2 = Failure c m →
  (submit db user body now).1 = db.
Proof.
  unfold time_attack_submit.
  repeat case_match; simpl; intros; simplify_eq; done.
Qed.

(** An accepted submit, spelled out. *)
Lemma submit_accepted db user body now :
  accepted (submit db user body now).2 = true →
  ∃ sid s gid,
    truthy (sessionId body) = true ∧
    isCorrect body ≠ JUndefined ∧
    castObjectId (sessionId body) = Some sid ∧
    sessions db !! sid = Some s ∧
    studentId s = user ∧
    status s = InProgress ∧
    questions s !! currentQuestionIndex s = Some gid ∧
    (submit db user body now).1 =
      mkDb (games db)
           (<[sid := advanced (isCorrect body) now s]> (sessions db))
           (submissions db ++
              [mkGameSubmission gid user (truthy (isCorrect body)) now])
           (if (length (questions s) <=? S (currentQuestionIndex s))%nat
            then leaderboard db ++
                   [mkEntry user (award (isCorrect body) s)
                            (now - startTime s) now]
            else leaderboard db) ∧
    (submit db user body now).2 =
      (if (length (questions s) <=? S (currentQuestionIndex s))%nat
       then SubmitCompleted (award (isCorrect body) s) (now - startTime s)
       else SubmitInProgress
              (questions s !! S (currentQuestionIndex s)
                 ≫= Game_findById (games db))).
Proof.
  unfold time_attack_submit, advanced, award.
  destruct (truthy (sessionId body)) eqn:Hsid; simpl; [|done].
  destruct (is_undefined (isCorrect body)) eqn:Hic; simpl; [done|].
  assert (isCorrect body ≠ JUndefined) by (intros E; rewrite E in Hic; done).
  all: destruct (castObjectId (sessionId body)) as [sid|]; simpl; [|done].
  all: destruct (sessions db !! sid) as [s|] eqn:Hs; simpl; [|done].
  all: destruct (Nat.eqb (studentId s) user) eqn:Hu; simpl; [|done].
  all: apply Nat.eqb_eq in Hu.
  all: case_bool_decide as Hst; simpl; [|done].
  all: destruct (questions s !! currentQuestionIndex s) as [gid|] eqn:Hq;
    simpl; [|done].
  all: intros _; exists sid, s, gid.
  all: destruct (length (questions s) <=? S (currentQuestionIndex s))%nat;
    simpl; repeat split; try done.
Qed.

(** *** The sampler *)

Lemma sample_length size pool rng i :
  length (sample size pool rng i) = (size `min` length pool)%nat.
Proof.
  revert pool i. induction size as [|size IH]; intros pool i; simpl; [done|].
  destruct pool as [|q pool]; [done|].
  set (j := (rng i mod length (q :: pool))%nat).
  assert (Hj : (j < length (q :: pool))%nat)
    by (apply Nat.mod_upper_bound; simpl; lia).
  destruct (lookup_lt_is_Some_2 _ _ Hj) as [x Hx]. rewrite Hx. simpl.
  rewrite IH, length_delete by eauto. simpl. lia.
Qed.

Lemma sample_elem size pool rng i q :
  q ∈ sample size pool rng i → q ∈ pool.
Proof.
  revert pool i. induction size as [|size IH]; intros pool i; simpl.
  { by intros ?%elem_of_nil. }
  destruct pool as [|p pool]; [done|].
  destruct ((p :: pool) !! _) as [x|] eqn:Hx; [|by intros ?%elem_of_nil].
  intros [->|Hin]%elem_of_cons.
  - eapply list_elem_of_lookup_2; eauto.
  - apply IH in Hin. eapply list_elem_of_delete_inv, Hin.
Qed.

(** *** The stored sessions stay well formed *)

Lemma advanced_wf ic now s gid :
  questions s !! currentQuestionIndex s = Some gid →
  status s = InProgress →
  session_wf (advanced ic now s).
Proof.
  intros Hq%lookup_lt_Some Hst. unfold advanced, session_wf.
  destruct (Nat.leb_spec (length (questions s)) (S (currentQuestionIndex s)));
    simpl; rewrite ?Hst; split; try lia; split; try done; lia.
Qed.

Lemma start_wf db user body rng now :
  db_wf db → db_wf (time_attack_start db user body rng now).1.
Proof.
  unfold time_attack_start, db_wf.
  destruct (Nat.ltb_spec (length (Game_aggregate (games db) body rng)) 1);
    simpl; [done|].
  intros Hwf. apply Forall_app; split; [done|].
  apply Forall_singleton. unfold session_wf; simpl.
  split; [lia|]. split; [done | lia].
Qed.

Lemma submit_wf db user body now :
  db_wf db → db_wf (submit db user body now).1.
Proof.
  intros Hwf.
  destruct (accepted (submit db user body now).2) eqn:Hacc.
  - destruct (submit_accepted _ _ _ _ Hacc)
      as (sid & s & gid & _ & _ & _ & Hs & _ & Hst & Hq & -> & _).
    unfold db_wf; simpl. apply Forall_insert; [done|].
    by eapply advanced_wf.
  - destruct (submit db user body now).2 as [| | | | |c m] eqn:Hr; try done.
    by rewrite (submit_failure _ _ _ _ _ _ Hr).
Qed.

Lemma handle_wf db req :
  db_wf db → db_wf (handle castObjectId db req).1.
Proof.
  destruct req; simpl; auto using start_wf, submit_wf.
Qed.

Lemma run_wf reqs db :
  db_wf db → db_wf (run castObjectId db reqs).
Proof.
  revert db. induction reqs as [|r reqs IH]; intros db Hwf; [done|].
  apply IH, handle_wf, Hwf.
Qed.

Lemma empty_db_wf gs : db_wf (empty_db gs).
Proof. constructor. Qed.

(** *** What a request leaves alone *)

Lemma start_keeps db user body rng now j s :
  sessions db !! j = Some s →
  sessions (time_attack_start db user body rng now).1 !! j = Some s.
Proof.
  unfold time_attack_start. case_match; simpl; [done|].
  intros Hs. by apply lookup_app_l_Some.
Qed.

Lemma submit_rejected db user body now sid :
  castObjectId (sessionId body) = Some sid →
  (sessions db !! sid = None ∨
   ∃ s, sessions db !! sid = Some s ∧
        (studentId s ≠ user ∨ status s = Completed)) →
  (submit db user body now).1 = db ∧
  (truthy (sessionId body) = true → isCorrect body ≠ JUndefined →
   (submit db user body now).2 = Failure 404 "Active session not found").
Proof.
  intros Hc Hbad. unfold time_attack_submit. rewrite Hc.
  destruct (truthy (sessionId body)); simpl; [|by split].
  destruct (is_undefined (isCorrect body)) eqn:Hic; simpl.
  { split; [done|]. intros _ Hne. by destruct (isCorrect body). }
  destruct Hbad as [->|(s & -> & [Hu|Hst])]; [by split|..].
  - apply Nat.eqb_neq in Hu. rewrite Hu. by split.
  - rewrite Hst, orb_true_r. by split.
Qed.

(** A completed session is never written again. *)
Lemma completed_frozen_step db req sid s :
  sessions db !! sid = Some s → status s = Completed →
  sessions (handle castObjectId db req).1 !! sid = Some s.
Proof.
  intros Hs Hst. destruct req as [u b rng now|u b now| |gs]; simpl; try done.
  - by apply start_keeps.
  - destruct (accepted (submit db u b now).2) eqn:Hacc.
    + destruct (submit_accepted _ _ _ _ Hacc)
        as (sid' & s' & gid & _ & _ & _ & Hs' & _ & Hst' & _ & -> & _).
      simpl. destruct (decide (sid' = sid)) as [->|Hne].
      * congruence.
      * by rewrite list_lookup_insert_ne.
    + destruct (submit db u b now).2 as [| | | | |c m] eqn:Hr; try done.
      by rewrite (submit_failure _ _ _ _ _ _ Hr).
Qed.

Lemma completed_frozen reqs db sid s :
  sessions db !! sid = Some s → status s = Completed →
  sessions (run castObjectId db reqs) !! sid = Some s.
Proof.
  revert db. induction reqs as [|r reqs IH]; intros db Hs Hst; [done|].
  simpl. apply IH; [|done]. by apply completed_frozen_step.
Qed.

Lemma completions_after_completed reqs db sid :
  is_completed sid db = true → completions castObjectId sid db reqs = 0%nat.
Proof.
  revert db. induction reqs as [|r reqs IH]; intros db Hc; [done|].
  simpl. unfold is_completed in Hc.
  destruct (sessions db !! sid) as [s|] eqn:Hs; [|done].
  apply bool_decide_eq_true in Hc.
  assert (Hc' : is_completed sid (handle castObjectId db r).1 = true).
  { unfold is_completed.
    rewrite (completed_frozen_step db r sid s Hs Hc).
    by apply bool_decide_eq_true. }
  rewrite IH by done. unfold is_completed at 2. rewrite Hs.
  rewrite (bool_decide_eq_true_2 _ Hc). rewrite andb_false_r. done.
Qed.

Lemma completions_le_1 reqs db sid :
  (completions castObjectId sid db reqs ≤ 1)%nat.
Proof.
  revert db. induction reqs as [|r reqs IH]; intros db; simpl; [lia|].
  destruct (is_completed sid (handle castObjectId db r).1) eqn:Hc; simpl.
  - rewrite completions_after_completed by done. case_match; lia.
  - apply IH.
Qed.

(** *** A submit that goes through *)

Lemma submit_ok db user body now sid s :
  truthy (sessionId body) = true →
  isCorrect body ≠ JUndefined →
  castObjectId (sessionId body) = Some sid →
  sessions db !! sid = Some s →
  studentId s = user →
  status s = InProgress →
  (currentQuestionIndex s < length (questions s))%nat →
  ∃ gid,
    questions s !! currentQuestionIndex s = Some gid ∧
    submit db user body now =
      (mkDb (games db)
            (<[sid := advanced (isCorrect body) now s]> (sessions db))
            (submissions db ++
               [mkGameSubmission gid user (truthy (isCorrect body)) now])
            (if (length (questions s) <=? S (currentQuestionIndex s))%nat
             then leaderboard db ++
                    [mkEntry user (award (isCorrect body) s)
                             (now - startTime s) now]
             else leaderboard db),
       if (length (questions s) <=? S (currentQuestionIndex s))%nat
       then SubmitCompleted (award (isCorrect body) s) (now - startTime s)
       else SubmitInProgress
              (questions s !! S (currentQuestionIndex s)
                 ≫= Game_findById (games db))).
Proof.
  intros Hsid Hic Hc Hs Hu Hst Hlt.
  destruct (lookup_lt_is_Some_2 _ _ Hlt) as [gid Hq].
  exists gid. split; [done|].
  unfold time_attack_submit, advanced, award.
  rewrite Hsid, Hc, Hs, Hq, Hst. simpl.
  replace (is_undefined (isCorrect body)) with false
    by (by destruct (isCorrect body)).
  apply Nat.eqb_eq in Hu. rewrite Hu. simpl.
  by destruct (length (questions s) <=? S (currentQuestionIndex s))%nat.
Qed.

Lemma wf_in_progress_lt db sid s :
  db_wf db → sessions db !! sid = Some s → status s = InProgress →
  (currentQuestionIndex s < length (questions s))%nat.
Proof.
  intros Hwf Hs Hst.
  destruct (proj1 (Forall_lookup _ _) Hwf _ _ Hs) as [Hle Hiff].
  destruct (decide (currentQuestionIndex s = length (questions s))) as [E|];
    [|lia].
  apply Hiff in E. congruence.
Qed.

(** *** A whole play-through *)

Lemma play_to_completion answers : ∀ db user sidv sid s last,
  answers ≠ [] →
  truthy sidv = true →
  castObjectId sidv = Some sid →
  Forall (fun a => fst a ≠ JUndefined) answers →
  sessions db !! sid = Some s →
  studentId s = user →
  status s = InProgress →
  (currentQuestionIndex s + length answers)%nat = length (questions s) →
  let r := play castObjectId db user sidv answers last in
  let sc := score s + 10 * Z.of_nat (count_correct answers) in
  let t := last_time answers 0 in
  r.2 = SubmitCompleted sc (t - startTime s) ∧
  sessions r.1 =
    <[sid := mkSession user (questions s) (length (questions s)) sc
                       (startTime s) (Some t) Completed]> (sessions db) ∧
  leaderboard r.1 = leaderboard db ++ [mkEntry user sc (t - startTime s) t] ∧
  length (submissions r.1) = (length (submissions db) + length answers)%nat ∧
  games r.1 = games db.
Proof.
  induction answers as [|[ic now] rest IH];
    intros db user sidv sid s last Hne Hsid Hc Hall Hs Hu Hst Hlen; [done|].
  simpl in Hlen. apply Forall_cons in Hall as [Hic Hall]. simpl in Hic.
  destruct (submit_ok db user (mkSubmitBody sidv ic) now sid s)
    as (gid & Hq & Hsub); simpl; try done; [lia|].
  simpl in Hsub. cbn [play]. rewrite Hsub. clear Hsub.
  unfold count_correct. cbn [List.filter fst last_time].
  destruct rest as [|a rest].
  - (* the last answer *)
    simpl in Hlen.
    replace (length (questions s) <=? S (currentQuestionIndex s))%nat
      with true by (symmetry; apply Nat.leb_le; lia).
    unfold advanced, award.
    replace (length (questions s) <=? S (currentQuestionIndex s))%nat
      with true by (symmetry; apply Nat.leb_le; lia).
    replace (S (currentQuestionIndex s)) with (length (questions s)) by lia.
    cbn. rewrite Hu, length_app. simpl.
    destruct (truthy ic); simpl; repeat split; f_equal; try done; try lia;
      do 2 f_equal; lia.
  - (* an answer with more to come *)
    simpl in Hlen.
    replace (length (questions s) <=? S (currentQuestionIndex s))%nat
      with false by (symmetry; apply Nat.leb_gt; lia).
    set (s' := advanced ic now s).
    assert (Hs' : s' = mkSession (studentId s) (questions s)
                                 (S (currentQuestionIndex s)) (award ic s)
                                 (startTime s) (endTime s) (status s)).
    { unfold s', advanced.
      by replace (length (questions s) <=? S (currentQuestionIndex s))%nat
        with false by (symmetry; apply Nat.leb_gt; lia). }
    set (db' := mkDb _ _ _ _).
    assert (Hsid' : sessions db' !! sid = Some s').
    { simpl. apply list_lookup_insert_eq. by eapply lookup_lt_Some. }
    specialize (IH db' user sidv sid s' (SubmitInProgress
      (questions s !! S (currentQuestionIndex s) ≫= Game_findById (games db)))).
    destruct IH as (H1 & H2 & H3 & H4 & H5); try done.
    { by rewrite Hs'. }
    { by rewrite Hs'. }
    { rewrite Hs'. simpl. lia. }
    change (last_time (a :: rest) 0) with (last_time (a :: rest) now).
    assert (Hsc : score s' + 10 * Z.of_nat (count_correct (a :: rest))
                  = score s + 10 * Z.of_nat
                      (length (if truthy ic
                               then (ic, now) :: List.filter (fun a => truthy a.1) (a :: rest)
                               else List.filter (fun a => truthy a.1) (a :: rest)))).
    { rewrite Hs'. unfold award, count_correct. simpl.
      destruct (truthy ic); simpl length; lia. }
    rewrite Hsc in *.
    replace (questions s') with (questions s) in * by (by rewrite Hs').
    replace (startTime s') with (startTime s) in * by (by rewrite Hs').
    repeat split; try done.
    + rewrite H2. simpl. by rewrite list_insert_insert_eq.
    + rewrite H4. unfold db'; simpl. rewrite length_app. simpl. lia.
Qed.

(** *** The session cursor *)

(** C1. In every state reached from a well-formed store, each stored
    session has its cursor at most at the length of its question
    sequence and is completed exactly when the cursor equals that
    length; an accepted submit finds an in-progress session, moves its
    cursor up by exactly 1 without passing the length, keeps its
    question sequence, answers "completed" exactly when the cursor has
    reached the length, and writes no other session; a submit that is
    not accepted changes nothing. *)
Theorem submit_advances_cursor_by_one db0 reqs user body now :
  db_wf db0 →
  let db := run castObjectId db0 reqs in
  let r := submit db user body now in
  (∀ s, s ∈ sessions db →
     (currentQuestionIndex s ≤ length (questions s))%nat ∧
     (status s = Completed ↔
      currentQuestionIndex s = length (questions s))) ∧
  (accepted r.2 = true →
   ∃ sid s s',
     castObjectId (sessionId body) = Some sid ∧
     sessions db !! sid = Some s ∧
     sessions r.1 !! sid = Some s' ∧
     status s = InProgress ∧
     currentQuestionIndex s' = S (currentQuestionIndex s) ∧
     questions s' = questions s ∧
     (currentQuestionIndex s' ≤ length (questions s'))%nat ∧
     (status s' = Completed ↔
      currentQuestionIndex s' = length (questions s')) ∧
     ((∃ f t, r.2 = SubmitCompleted f t) ↔ status s' = Completed) ∧
     (∀ j, j ≠ sid → sessions r.1 !! j = sessions db !! j)) ∧
  (accepted r.2 = false → r.1 = db).
Proof.
  intros Hwf0 db r.
  assert (Hwf : db_wf db) by (by apply run_wf).
  split; [|split].
  - intros s Hs. exact (proj1 (Forall_forall _ _) Hwf s Hs).
  - intros Hacc.
    destruct (submit_accepted _ _ _ _ Hacc)
      as (sid & s & gid & _ & _ & Hc & Hs & _ & Hst & Hq & Hdb & Hresp).
    exists sid, s, (advanced (isCorrect body) now s).
    assert (Hwf' := advanced_wf (isCorrect body) now s gid Hq Hst).
    destruct Hwf' as [Hle Hiff].
    subst r. rewrite Hdb, Hresp. simpl.
    repeat split; try done.
    + apply list_lookup_insert_eq. by eapply lookup_lt_Some.
    + unfold advanced. by case_match.
    + unfold advanced. by case_match.
    + by apply Hiff.
    + by apply Hiff.
    + unfold advanced.
      destruct (length (questions s) <=? S (currentQuestionIndex s))%nat;
        simpl; [done|]. intros (f & t & ?); done.
    + unfold advanced.
      destruct (length (questions s) <=? S (currentQuestionIndex s))%nat;
        simpl; [eauto|]. congruence.
    + intros j Hj. by apply list_lookup_insert_ne.
  - intros Hacc. subst r.
    destruct (submit db user body now).2 as [| | | | |c m] eqn:Hr; try done.
    by rewrite (submit_failure _ _ _ _ _ _ Hr).
Qed.

(** *** Submits against inactive sessions *)

(** C2 (amended). A submit whose sessionId names no session the caller
    could answer (it casts to an id that is absent from the store, or
    stored for another student, or stored as completed, or it does not
    cast to an id at all) leaves the whole store as it was: sessions,
    submissions and leaderboard alike.  The answer is 400 when the body
    fails the field check (sessionId falsy or isCorrect undefined), which
    comes first; otherwise 500 when the sessionId does not cast, the
    lookup throwing; otherwise 404.  Hence a completed session is never
    rewritten by any later requests, and no session becomes completed
    more than once. *)
Theorem submit_to_inactive_session_is_404 db user body now reqs :
  (∀ sid, castObjectId (sessionId body) = Some sid →
     sessions db !! sid = None ∨
     ∃ s, sessions db !! sid = Some s ∧
          (studentId s ≠ user ∨ status s = Completed)) →
  (submit db user body now).1 = db ∧
  (submit db user body now).2
    = (if negb (truthy (sessionId body)) || is_undefined (isCorrect body)
       then Failure 400 "sessionId and isCorrect are required"
       else match castObjectId (sessionId body) with
            | Some _ => Failure 404 "Active session not found"
            | None => Failure 500 "Server error submitting answer"
            end) ∧
  (∀ sid s, sessions db !! sid = Some s → status s = Completed →
        sessions (run castObjectId db reqs) !! sid = Some s) ∧
  (∀ sid', completions castObjectId sid' db reqs ≤ 1)%nat.
Proof.
  intros Hbad.
  assert (Hstep : (submit db user body now).1 = db ∧
    (submit db user body now).2
    = (if negb (truthy (sessionId body)) || is_undefined (isCorrect body)
       then Failure 400 "sessionId and isCorrect are required"
       else match castObjectId (sessionId body) with
            | Some _ => Failure 404 "Active session not found"
            | None => Failure 500 "Server error submitting answer"
            end)).
  { unfold time_attack_submit.
    destruct (negb (truthy (sessionId body)) || is_undefined (isCorrect body));
      [by split|].
    destruct (castObjectId (sessionId body)) as [sid|] eqn:Hc; [|by split].
    destruct (Hbad sid eq_refl) as [->|(s & -> & [Hu|Hst])]; [by split|..].
    - apply Nat.eqb_neq in Hu. rewrite Hu. by split.
    - rewrite Hst, orb_true_r. by split. }
  destruct Hstep as [Hdb Hresp].
  split; [done|]. split; [done|]. split.
  - intros sid s Hs Hst. by apply completed_frozen.
  - intros sid'. apply completions_le_1.
Qed.

(** *** Completion *)

(** C3. An accepted submit that brings the cursor to the length of the
    question sequence stores the session as completed with endTime the
    time of the request, appends exactly one leaderboard entry with the
    session's score and timeTakenMs = endTime - startTime, and answers
    with that score and duration; any other accepted submit appends no
    entry.  A session that is started and then answered once per
    question ends with score 10 times the number of correct answers
    and one new leaderboard row of the student; with three questions
    all answered correctly the final score is 30. *)
Theorem completion_writes_one_leaderboard_entry
    db user body now sb rng t0 sidv answers :
  let r := submit db user body now in
  (accepted r.2 = true →
   ∃ sid s s',
     castObjectId (sessionId body) = Some sid ∧
     sessions db !! sid = Some s ∧
     sessions r.1 !! sid = Some s' ∧
     score s' = award (isCorrect body) s ∧
     (currentQuestionIndex s' = length (questions s') →
      status s' = Completed ∧ endTime s' = Some now ∧
      leaderboard r.1 =
        leaderboard db ++ [mkEntry user (score s') (now - startTime s') now] ∧
      r.2 = SubmitCompleted (score s') (now - startTime s')) ∧
     (currentQuestionIndex s' ≠ length (questions s') →
      status s' = InProgress ∧ leaderboard r.1 = leaderboard db)) ∧
  let qs := Game_aggregate (games db) sb rng in
  let r0 := time_attack_start db user sb rng t0 in
  let r1 := play castObjectId r0.1 user sidv answers r0.2 in
  let sc := 10 * Z.of_nat (count_correct answers) in
  let t := last_time answers 0 in
  (qs ≠ [] →
   truthy sidv = true →
   castObjectId sidv = Some (length (sessions db)) →
   Forall (fun a => fst a ≠ JUndefined) answers →
   length answers = length qs →
   r1.2 = SubmitCompleted sc (t - t0) ∧
   leaderboard r1.1 = leaderboard db ++ [mkEntry user sc (t - t0) t] ∧
   sessions r1.1 =
     sessions db ++ [mkSession user qs (length qs) sc t0 (Some t) Completed] ∧
   (length qs = 3%nat → Forall (fun a => truthy (fst a) = true) answers →
    sc = 30)).
Proof.
  intros r. split.
  - intros Hacc.
    destruct (submit_accepted _ _ _ _ Hacc)
      as (sid & s & gid & _ & _ & Hc & Hs & _ & Hst & Hq & Hdb & Hresp).
    exists sid, s, (advanced (isCorrect body) now s).
    subst r. rewrite Hdb, Hresp. simpl.
    apply lookup_lt_Some in Hq as Hlt.
    split; [done|]. split; [done|].
    split; [apply list_lookup_insert_eq; by eapply lookup_lt_Some|].
    unfold advanced.
    destruct (Nat.leb_spec (length (questions s)) (S (currentQuestionIndex s)));
      simpl; repeat split; try done; try lia.
  - intros qs r0 r1 sc t Hqs Hsid Hc Hall Hlen.
    assert (Hstart : r0 = (mkDb (games db)
                                (sessions db ++ [new_session user qs t0])
                                (submissions db) (leaderboard db),
                           StartOk (length (sessions db))
                             (head qs ≫= Game_findById (games db)))).
    { subst r0. unfold time_attack_start. fold qs.
      destruct qs; [done|]. reflexivity. }
    assert (Hne : answers ≠ []).
    { intros ->. destruct qs; [done|]. simpl in Hlen. lia. }
    destruct (play_to_completion answers r0.1 user sidv (length (sessions db))
                (new_session user qs t0) r0.2) as (H1 & H2 & H3 & _ & _);
      try done.
    { rewrite Hstart. simpl. by apply list_lookup_middle. }
    fold r1 in H1, H2, H3. rewrite Hstart in H2, H3.
    cbn [new_session score startTime questions fst
         sessions leaderboard] in H1, H2, H3.
    rewrite Z.add_0_l in H1, H2, H3. fold t sc in H1, H2, H3.
    repeat split; try done.
    + rewrite H2. rewrite insert_app_r_alt by lia.
      by rewrite Nat.sub_diag.
    + intros H3q Htr. subst sc. unfold count_correct.
      assert (List.filter (fun a => truthy a.1) answers = answers) as ->.
      { clear -Htr. induction Htr as [|a l Ha _ IH]; [done|].
        simpl. rewrite Ha. by f_equal. }
      rewrite Hlen, H3q. done.
Qed.

(** *** Starting a session *)

Lemma questions_fixed_step db req sid s :
  sessions db !! sid = Some s →
  ∃ s', sessions (handle castObjectId db req).1 !! sid = Some s' ∧
        questions s' = questions s ∧ studentId s' = studentId s.
Proof.
  intros Hs. destruct req as [u b rng now|u b now| |gs]; simpl; eauto.
  - exists s. split; [by apply start_keeps|done].
  - destruct (accepted (submit db u b now).2) eqn:Hacc.
    + destruct (submit_accepted _ _ _ _ Hacc)
        as (sid' & s1 & gid & _ & _ & _ & Hs1 & _ & _ & _ & -> & _).
      simpl. destruct (decide (sid' = sid)) as [->|Hne].
      * exists (advanced (isCorrect b) now s1).
        rewrite list_lookup_insert_eq by (by eapply lookup_lt_Some).
        assert (s1 = s) as -> by congruence.
        unfold advanced. by case_match.
      * exists s. by rewrite list_lookup_insert_ne.
    + destruct (submit db u b now).2 as [| | | | |c m] eqn:Hr; try done.
      rewrite (submit_failure _ _ _ _ _ _ Hr). eauto.
Qed.

Lemma questions_fixed reqs db sid s :
  sessions db !! sid = Some s →
  ∃ s', sessions (run castObjectId db reqs) !! sid = Some s' ∧
        questions s' = questions s ∧ studentId s' = studentId s.
Proof.
  revert db s. induction reqs as [|r reqs IH]; intros db s Hs; [eauto|].
  destruct (questions_fixed_step db r sid s Hs) as (s1 & Hs1 & Hq1 & Hu1).
  destruct (IH _ _ Hs1) as (s2 & Hs2 & Hq2 & Hu2).
  exists s2. simpl. split; [done|]. split; congruence.
Qed.

Lemma Game_findById_elem gs g :
  g ∈ gs → ∃ g', g' ∈ gs ∧ g_id g' = g_id g ∧
                 Game_findById gs (g_id g) = Some (select_view g').
Proof.
  unfold Game_findById. induction 1 as [g gs|g g0 gs Hin IH]; simpl.
  - rewrite Nat.eqb_refl. exists g. split; [left|done].
  - destruct (Nat.eqb_spec (g_id g0) (g_id g)) as [E|_].
    + exists g0. split; [left|done].
    + destruct IH as (g' & ? & ? & ?). exists g'. split; [by right|done].
Qed.

(** C4 (amended). Start answers 404 exactly when no published game
    matches the filters, and then changes nothing; otherwise it appends
    one session under a fresh id, owned by the caller, with cursor 0,
    score 0, status in-progress, start time the time of the request and
    a question sequence of length min(5, number of matching games) (so
    between 1 and 5) drawn from the matching games, and answers with
    that id and the first question of the sequence; no later request
    changes the sequence. *)
Theorem start_creates_session db user body rng now reqs :
  let matched := List.filter (query_matches body) (games db) in
  let r := time_attack_start db user body rng now in
  let sid := length (sessions db) in
  ((length matched < 1)%nat ↔ ∃ m, r.2 = Failure 404 m) ∧
  ((length matched < 1)%nat → r.1 = db) ∧
  ((1 ≤ length matched)%nat →
   ∃ s g,
     sessions db !! sid = None ∧
     r.1 = mkDb (games db) (sessions db ++ [s])
                (submissions db) (leaderboard db) ∧
     sessions r.1 !! sid = Some s ∧
     r.2 = StartOk sid (Some (select_view g)) ∧
     g ∈ games db ∧ head (questions s) = Some (g_id g) ∧
     studentId s = user ∧ currentQuestionIndex s = 0%nat ∧ score s = 0 ∧
     status s = InProgress ∧ startTime s = now ∧ endTime s = None ∧
     length (questions s)
       = (TIME_ATTACK_QUESTION_COUNT `min` length matched)%nat ∧
     (1 ≤ length (questions s) ≤ TIME_ATTACK_QUESTION_COUNT)%nat ∧
     (∀ q, q ∈ questions s → ∃ g', g' ∈ matched ∧ g_id g' = q) ∧
     ∃ s', sessions (run castObjectId r.1 reqs) !! sid = Some s' ∧
           questions s' = questions s).
Proof.
  intros matched r sid.
  set (qs := Game_aggregate (games db) body rng).
  assert (Hlen : length qs = (TIME_ATTACK_QUESTION_COUNT `min` length matched)%nat).
  { unfold qs, Game_aggregate. rewrite sample_length.
    by rewrite length_fmap. }
  assert (Hin : ∀ q, q ∈ qs → ∃ g', g' ∈ matched ∧ g_id g' = q).
  { intros q Hq. apply sample_elem in Hq.
    apply list_elem_of_fmap in Hq as (g' & -> & Hg'). eauto. }
  assert (Hr : r = if (length qs <? 1)%nat
                   then (db, Failure 404 "Not enough questions available to start a Time Attack session.")
                   else (mkDb (games db) (sessions db ++ [new_session user qs now])
                              (submissions db) (leaderboard db),
                         StartOk sid (head qs ≫= Game_findById (games db))))
    by reflexivity.
  unfold TIME_ATTACK_QUESTION_COUNT in *.
  destruct (Nat.ltb_spec (length qs) 1) as [Hlt|Hge]; rewrite Hr; simpl.
  - split; [|split]; [split; [eauto|lia]|done|lia].
  - split; [|split]; [split; [lia|by intros [? ?]]|lia|].
    intros Hm.
    destruct qs as [|q0 qs'] eqn:Eqs; [simpl in Hge; lia|].
    destruct (Hin q0) as (g0 & Hg0 & Hid); [left|].
    assert (Hg0' : g0 ∈ games db).
    { apply list_elem_of_In. apply list_elem_of_In in Hg0.
      by apply filter_In in Hg0 as [? _]. }
    destruct (Game_findById_elem _ _ Hg0') as (g & Hg & Hgid & Hfind).
    rewrite Hid in Hfind, Hgid.
    destruct (questions_fixed reqs
                (mkDb (games db) (sessions db ++ [new_session user (q0 :: qs') now])
                      (submissions db) (leaderboard db))
                sid (new_session user (q0 :: qs') now))
      as (s' & Hs' & Hq' & _).
    { simpl. by apply list_lookup_middle. }
    exists (new_session user (q0 :: qs') now), g. simpl.
    rewrite Hfind.
    repeat split; try done; try lia.
    + by apply lookup_ge_None_2.
    + by apply list_lookup_middle.
    + by rewrite Hgid.
    + cbn [length] in Hlen. lia.
    + eauto.
Qed.

(** *** Validation of a submit *)

(** C10 (amended). A submit is answered 400 exactly when sessionId is
    falsy (absent, null, false, 0 or the empty string) or isCorrect is
    undefined.  Any other isCorrect, sent for an in-progress session of
    the caller, is accepted: the score grows by 10 if the value is
    truthy and stays otherwise, and the logged submission holds the
    value's truthiness; the string "false" is truthy, while 0, null
    and false are not. *)
Theorem submit_validation db user body now :
  ((∃ m, (submit db user body now).2 = Failure 400 m) ↔
   (truthy (sessionId body) = false ∨ isCorrect body = JUndefined)) ∧
  (∀ sid s,
     db_wf db →
     truthy (sessionId body) = true →
     isCorrect body ≠ JUndefined →
     castObjectId (sessionId body) = Some sid →
     sessions db !! sid = Some s →
     studentId s = user →
     status s = InProgress →
     accepted (submit db user body now).2 = true ∧
     ∃ s' gid,
       sessions (submit db user body now).1 !! sid = Some s' ∧
       score s' = (if truthy (isCorrect body) then score s + 10 else score s) ∧
       submissions (submit db user body now).1 =
         submissions db ++
           [mkGameSubmission gid user (truthy (isCorrect body)) now]) ∧
  truthy (JStr "false") = true ∧
  truthy (JNum 0) = false ∧ truthy JNull = false ∧
  truthy (JBool false) = false.
Proof.
  split; [|split; [|done]].
  - unfold time_attack_submit.
    destruct (truthy (sessionId body)) eqn:Hsid; simpl.
    2: { split; eauto. }
    destruct (is_undefined (isCorrect body)) eqn:Hic; simpl.
    { split; [intros _; right; by destruct (isCorrect body)|eauto]. }
    split.
    + intros [m Hm]. exfalso. revert Hm.
      repeat case_match; simpl; intros; simplify_eq.
    + intros [?|E]; [done|]. by rewrite E in Hic.
  - intros sid s Hwf Hsid Hic Hc Hs Hu Hst.
    assert (Hlt := wf_in_progress_lt db sid s Hwf Hs Hst).
    destruct (submit_ok db user body now sid s) as (gid & Hq & ->); try done.
    simpl. split; [by case_match|].
    exists (advanced (isCorrect body) now s), gid.
    split; [apply list_lookup_insert_eq; by eapply lookup_lt_Some|].
    split; [|done]. unfold advanced, award; by case_match.
Qed.

End ServerFacts.

(** *** The leaderboard *)

Global Instance ranks_before_total : Total ranks_before.
Proof. intros a b. unfold ranks_before. lia. Qed.

Global Instance ranks_before_trans : Transitive ranks_before.
Proof. intros a b c. unfold ranks_before. lia. Qed.

Lemma StronglySorted_lookup_lt {A} (R : relation A) (l : list A) i j a b :
  StronglySorted R l → l !! i = Some a → l !! j = Some b → (i < j)%nat →
  R a b.
Proof.
  intros Hs Ha Hb Hij. rewrite <- (take_drop j l) in Hs.
  eapply StronglySorted_app_1_elem_of; [exact Hs| |].
  - apply elem_of_take. eauto.
  - apply list_elem_of_lookup. exists 0%nat.
    by rewrite lookup_drop, Nat.add_0_r.
Qed.

(** C5 (amended). The leaderboard endpoint changes nothing and returns at
    most 10 rows, the first rows of the stored entries put in order: a
    row above another has a higher score, or the same score and a time
    that is no longer; a row with a higher score, or with the same score
    and a strictly shorter time, than another returned row is above it;
    and no stored entry left out ranks strictly before a returned one. *)
Theorem leaderboard_top_ten_in_order db :
  ∃ rows rest,
    leaderboard_time_attack db = (db, LeaderboardOk rows) ∧
    (length rows ≤ 10)%nat ∧
    rows ++ rest ≡ₚ leaderboard db ∧
    (length rows < 10 → rest = [])%nat ∧
    (∀ i j a b,
       rows !! i = Some a → rows !! j = Some b → (i < j)%nat →
       lb_score a > lb_score b ∨
       (lb_score a = lb_score b ∧ lb_timeTakenMs a ≤ lb_timeTakenMs b)) ∧
    (∀ i j a b,
       rows !! i = Some a → rows !! j = Some b →
       lb_score a > lb_score b ∨
       (lb_score a = lb_score b ∧ lb_timeTakenMs a < lb_timeTakenMs b) →
       (i < j)%nat) ∧
    (∀ a e, a ∈ rows → e ∈ rest →
       lb_score a > lb_score e ∨
       (lb_score a = lb_score e ∧ lb_timeTakenMs a ≤ lb_timeTakenMs e)).
Proof.
  set (sorted := merge_sort ranks_before (leaderboard db)).
  assert (Hs : StronglySorted ranks_before sorted)
    by (apply StronglySorted_merge_sort; apply _).
  assert (Habove : ∀ i j a b,
    take 10 sorted !! i = Some a → take 10 sorted !! j = Some b →
    (i < j)%nat → ranks_before a b).
  { intros i j a b [Ha _]%lookup_take_Some [Hb _]%lookup_take_Some Hij.
    by eapply StronglySorted_lookup_lt. }
  exists (take 10 sorted), (drop 10 sorted).
  split; [done|]. split; [rewrite length_take; lia|].
  split; [rewrite take_drop; apply merge_sort_Permutation|].
  split; [|split; [|split]].
  - rewrite length_take. intros Hlt. apply drop_ge. lia.
  - intros i j a b Ha Hb Hij.
    specialize (Habove i j a b Ha Hb Hij). unfold ranks_before in Habove. lia.
  - intros i j a b Ha Hb Hbetter.
    destruct (decide (i < j)%nat) as [|Hge]; [done|exfalso].
    destruct (decide (i = j)) as [->|Hne].
    + assert (a = b) as -> by congruence. lia.
    + assert (Hji : (j < i)%nat) by lia.
      specialize (Habove j i b a Hb Ha Hji). unfold ranks_before in Habove. lia.
  - intros a e Ha He.
    rewrite <- (take_drop 10 sorted) in Hs.
    pose proof (StronglySorted_app_1_elem_of _ _ _ _ _ Hs Ha He) as H.
    unfold ranks_before in H. lia.
Qed.

(** C5, as first stated, fails on a tie: of two rows with the same score
    and the same time one is above the other, yet neither has the higher
    score nor the strictly shorter time. *)
Lemma leaderboard_tie_breaks_iff :
  let db := mkDb [] [] [] [mkEntry 1 30 5000 0; mkEntry 2 30 5000 1] in
  ∃ a b,
    leaderboard_time_attack db = (db, LeaderboardOk [a; b]) ∧
    ¬ (lb_score a > lb_score b ∨
       (lb_score a = lb_score b ∧ lb_timeTakenMs a < lb_timeTakenMs b)).
Proof.
  eexists _, _. split; [reflexivity|]. simpl. lia.
Qed.

(** *** Worked examples on the demo catalog *)

Lemma submit_advances_cursor_by_one_witness :
  db_wf (empty_db demo_games) ∧
  ∃ s', sessions (time_attack_submit unary_id
                    (run unary_id (empty_db demo_games) [demo_start]) 1
                    (mkSubmitBody demo_sid (JBool true)) 2000).1 !! 0%nat
        = Some s' ∧
        currentQuestionIndex s' = 1%nat.
Proof.
  assert (H : db_wf (empty_db demo_games)) by constructor.
  split; [exact H|].
  destruct (submit_advances_cursor_by_one unary_id (empty_db demo_games)
              [demo_start] 1 (mkSubmitBody demo_sid (JBool true)) 2000 H)
    as (_ & Hacc & _).
  destruct (Hacc eq_refl) as (sid & s & s' & Hc & Hs & Hs' & _ & Hidx & _).
  injection Hc as <-. injection Hs as <-.
  exists s'. split; [exact Hs'|exact Hidx].
Defined.

Lemma submit_to_inactive_session_is_404_witness :
  let db := run unary_id (empty_db demo_games) demo_play in
  unary_id demo_sid = Some 0%nat ∧
  (∃ s, sessions db !! 0%nat = Some s ∧ status s = Completed) ∧
  time_attack_submit unary_id db 1 (mkSubmitBody demo_sid (JBool true)) 5000
    = (db, Failure 404 "Active session not found") ∧
  unary_id (JObj []) = None ∧
  time_attack_submit unary_id db 1 (mkSubmitBody (JObj []) (JBool true)) 5000
    = (db, Failure 500 "Server error submitting answer").
Proof.
  intros db.
  assert (Hs : ∀ sid,
    unary_id (sessionId (mkSubmitBody demo_sid (JBool true))) = Some sid →
    sessions db !! sid = None ∨
    ∃ s, sessions db !! sid = Some s ∧
         (studentId s ≠ 1%nat ∨ status s = Completed)).
  { intros sid [= <-]. right. eexists.
    split; [vm_compute; reflexivity|right; reflexivity]. }
  assert (Hn : ∀ sid,
    unary_id (sessionId (mkSubmitBody (JObj []) (JBool true))) = Some sid →
    sessions db !! sid = None ∨
    ∃ s, sessions db !! sid = Some s ∧
         (studentId s ≠ 1%nat ∨ status s = Completed)).
  { intros sid [=]. }
  destruct (submit_to_inactive_session_is_404 unary_id db 1
              (mkSubmitBody demo_sid (JBool true)) 5000 [] Hs)
    as (Hdb & Hresp & _).
  destruct (submit_to_inactive_session_is_404 unary_id db 1
              (mkSubmitBody (JObj []) (JBool true)) 5000 [] Hn)
    as (Hdb' & Hresp' & _).
  split; [reflexivity|]. split; [|split; [|split; [reflexivity|]]].
  - eexists. split; vm_compute; reflexivity.
  - apply injective_projections; simpl; [exact Hdb|exact Hresp].
  - apply injective_projections; simpl; [exact Hdb'|exact Hresp'].
Defined.

Lemma completion_writes_one_leaderboard_entry_witness :
  let r0 := time_attack_start (empty_db demo_games) 1 (mkStartBody None None)
                              (fun _ => 0%nat) 1000 in
  let r1 := play unary_id r0.1 1 demo_sid demo_answers r0.2 in
  length (Game_aggregate demo_games (mkStartBody None None) (fun _ => 0%nat))
    = 3%nat ∧
  r1.2 = SubmitCompleted 30 3500 ∧
  leaderboard r1.1 = [mkEntry 1 30 3500 4500].
Proof.
  intros r0 r1.
  destruct (completion_writes_one_leaderboard_entry unary_id
              (empty_db demo_games) 1 (mkSubmitBody demo_sid (JBool true)) 0
              (mkStartBody None None) (fun _ => 0%nat) 1000
              demo_sid demo_answers) as [_ H].
  destruct H as (H1 & H2 & _).
  - discriminate.
  - reflexivity.
  - reflexivity.
  - repeat constructor; discriminate.
  - reflexivity.
  - split; [reflexivity|]. split; [exact H1|exact H2].
Defined.

(** C2, as first stated, fails when the body has no isCorrect: the field
    check comes before the session is looked up, and a submit naming a
    completed session is then answered 400, not 404 (the store is left
    alone all the same). *)
Lemma submit_without_isCorrect_is_400 :
  let db := run unary_id (empty_db demo_games) demo_play in
  unary_id demo_sid = Some 0%nat ∧
  (∃ s, sessions db !! 0%nat = Some s ∧ studentId s = 1%nat ∧
        status s = Completed) ∧
  time_attack_submit unary_id db 1 (mkSubmitBody demo_sid JUndefined) 5000
    = (db, Failure 400 "sessionId and isCorrect are required").
Proof.
  split; [reflexivity|]. split; [|reflexivity].
  eexists. split; [vm_compute; reflexivity|]. split; reflexivity.
Qed.

(** C4, as first stated, fails when fewer than five games match: with
    three published games the new session has three questions, not the
    configured five. *)
Lemma start_with_three_games_has_three_questions :
  let r := time_attack_start (empty_db demo_games) 1 (mkStartBody None None)
                             (fun _ => 0%nat) 1000 in
  ∃ s, r.2 = StartOk 0 (Some (mkGameView 100 "Joins" "quiz" "easy" "pick the join")) ∧
       sessions r.1 = [s] ∧
       questions s = [100; 101; 103]%nat ∧
       length (questions s) ≠ TIME_ATTACK_QUESTION_COUNT.
Proof.
  eexists. repeat split; try reflexivity. vm_compute. discriminate.
Qed.

(** C10, as first stated, fails for a sessionId that is present but
    falsy: the empty string and null are in the body, not undefined, and
    the answer is 400 all the same. *)
Lemma submit_rejects_present_falsy_sessionId :
  is_undefined (JStr EmptyString) = false ∧
  is_undefined JNull = false ∧
  is_undefined (JBool true) = false ∧
  (time_attack_submit unary_id (empty_db demo_games) 1
     (mkSubmitBody (JStr EmptyString) (JBool true)) 2000).2
    = Failure 400 "sessionId and isCorrect are required" ∧
  (time_attack_submit unary_id (empty_db demo_games) 1
     (mkSubmitBody JNull (JBool true)) 2000).2
    = Failure 400 "sessionId and isCorrect are required".
Proof. repeat split. Qed.

(** * Properties of the client engine *)

(** ** Rounding *)

Lemma Math_round_inject_Z z : Math_round (inject_Z z) = z.
Proof.
  unfold Math_round, Qfloor, Qplus, inject_Z. simpl.
  rewrite Z.mul_1_r. symmetry. apply (Z.div_unique _ _ _ 1); lia.
Qed.

Lemma Math_round_Qeq x y : (x == y)%Q → Math_round x = Math_round y.
Proof. intros E. unfold Math_round. apply Qfloor_comp. by rewrite E. Qed.

Lemma inject_Z_nonzero z : z ≠ 0 → ¬ (inject_Z z == 0)%Q.
Proof. unfold Qeq, inject_Z. simpl. lia. Qed.

(** ** Doubles *)

















(** ** The countdown *)

Section TimerFacts.

Context {Page : Type}.
Variable onFinish : Z → Page → Page.

Lemma ticks_app nows1 nows2 (t : Timed Page) :
  ticks onFinish (nows1 ++ nows2) t
  = ticks onFinish nows2 (ticks onFinish nows1 t).
Proof. apply fold_left_app. Qed.

(** While seconds are left, the interval only counts down. *)
Lemma ticks_counting nows : ∀ t : Timed Page,
  timerInterval t = true →
  (length nows ≤ Z.to_nat (timer t))%nat →
  ticks onFinish nows t
  = mkTimed (timer t - Z.of_nat (length nows)) true (page t).
Proof.
  induction nows as [|now nows IH]; intros [tm act pg] Hact Hlen;
    simpl in *; subst act.
  - f_equal. lia.
  - change (ticks onFinish (now :: nows) (mkTimed tm true pg))
      with (ticks onFinish nows (tick onFinish now (mkTimed tm true pg))).
    unfold tick; simpl.
    destruct (Z.ltb_spec (tm - 1) 0) as [Hlt|Hge]; [lia|].
    rewrite IH; simpl; [f_equal; lia|done|lia].
Qed.

(** The tick after the last second calls [onFinish] and clears the
    interval. *)
Lemma ticks_expiry nows now (t : Timed Page) :
  timerInterval t = true →
  length nows = Z.to_nat (timer t) →
  ticks onFinish (nows ++ [now]) t
  = mkTimed (timer t - Z.of_nat (length nows) - 1) false
            (onFinish now (page t)).
Proof.
  intros Hact Hlen. rewrite ticks_app, (ticks_counting nows t) by (done || lia).
  simpl. unfold tick. simpl.
  destruct (Z.ltb_spec (timer t - Z.of_nat (length nows) - 1) 0); [done|lia].
Qed.

(** A cleared interval stays silent. *)
Lemma ticks_cleared nows (t : Timed Page) :
  timerInterval t = false → ticks onFinish nows t = t.
Proof.
  intros Hact. induction nows as [|now nows IH]; [done|].
  change (ticks onFinish (now :: nows) t)
    with (ticks onFinish nows (tick onFinish now t)).
  unfold tick. by rewrite Hact.
Qed.

End TimerFacts.

Lemma seq_S_snoc n : seq 0 (S n) = seq 0 n ++ [n].
Proof. by rewrite seq_S. Qed.

(** C6. What the unjumble engine does, for any game: after the student's
    own submit the interval is still pending, and when it runs out the
    check function is called once more, so a second result is stored;
    without a submit, expiry calls the check function once, as a submit
    would, and clears the interval. *)
Theorem unjumble_timer_finalizes_again_after_submit
    game shuffled b t0 t1 (times : nat → Z) :
  let p0 := playUnjumble game shuffled b t0 in
  let n := Z.to_nat (timer p0) in
  let nows := times <$> seq 0 (S n) in
  let p1 := submit_click checkUnjumble t1 p0 in
  let p2 := ticks checkUnjumble nows p1 in
  let expired := ticks checkUnjumble nows p0 in
  (page expired = checkUnjumble (times n) (page p0) ∧
   timerInterval expired = false ∧
   length (activities (up_browser (page expired))) = S (length (activities b))) ∧
  (timerInterval p1 = true ∧
   length (activities (up_browser (page p1))) = S (length (activities b))) ∧
  (page p2 = checkUnjumble (times n) (checkUnjumble t1 (page p0)) ∧
   timerInterval p2 = false ∧
   length (activities (up_browser (page p2)))
     = S (S (length (activities b)))).
Proof.
  intros p0 n nows p1 p2 expired.
  assert (Hnows : nows = (times <$> seq 0 n) ++ [times n]).
  { unfold nows. by rewrite seq_S_snoc, fmap_app. }
  assert (Hlen : length (times <$> seq 0 n) = n)
    by (by rewrite length_fmap, length_seq).
  assert (He : expired = mkTimed (timer p0 - Z.of_nat n - 1) false
                           (checkUnjumble (times n) (page p0))).
  { unfold expired. rewrite Hnows, ticks_expiry by done. by rewrite Hlen. }
  assert (H2 : p2 = mkTimed (timer p0 - Z.of_nat n - 1) false
                      (checkUnjumble (times n) (checkUnjumble t1 (page p0)))).
  { unfold p2. rewrite Hnows, ticks_expiry by done. by rewrite Hlen. }
  rewrite He, H2. simpl.
  repeat split; rewrite ?length_app; simpl; lia.
Qed.

(** The same on a one-minute game: the student submits after 3 s, stays
    on the result screen, and 61 ticks later the store holds two results
    for the one play. *)
Example unjumble_two_results_for_one_play :
  let game := mkUnjumbleGame "u1" "unjumble" (Some ["a"; "b"]) 20 (Some 1) in
  let p0 := playUnjumble game [("a", 0%nat); ("b", 1%nat)] (mkBrowser [] false) 0 in
  let p1 := submit_click checkUnjumble 3000 p0 in
  let p2 := ticks checkUnjumble ((fun k => Z.of_nat k * 1000) <$> seq 1 61) p1 in
  activities (up_browser (page p1))
    = [mkActivity "u1" "unjumble" (Some 100) (Some 20) 3] ∧
  activities (up_browser (page p2))
    = [mkActivity "u1" "unjumble" (Some 100) (Some 20) 3;
       mkActivity "u1" "unjumble" (Some 100) (Some 20) 61].
Proof. vm_compute. done. Qed.

(** ** Quiz *)

Lemma parseQuestion_has_no_correct c :
  get_prop (parseQuestion c) "correct" = JUndefined.
Proof. reflexivity. Qed.

Lemma parseQuestion_correctIndex c :
  get_prop (parseQuestion c) "correctIndex" = JNum (qc_correct c).
Proof. reflexivity. Qed.

Lemma quiz_questions_authored id title description duration cards totalPoints
    createdAt game :
  quizForm_submit id title description duration cards totalPoints createdAt
    = Some game →
  cards ≠ [] ∧ quiz_questions game = parseQuestion <$> cards.
Proof.
  unfold quizForm_submit. rewrite length_fmap.
  destruct cards as [|c cards]; simpl; [done|].
  intros [= <-]. done.
Qed.

(** On the questions the form stores, no selection ever scores. *)
Lemma playQuiz_authored cards : ∀ answered selections sc,
  length selections = length cards →
  playQuiz (parseQuestion <$> (answered ++ cards)) selections
           (mkQuizState (length answered) sc)
  = Some (sc, Z.of_nat (length (answered ++ cards)) * 10).
Proof.
  induction cards as [|c cards IH]; intros answered selections sc Hlen.
  - destruct selections; [|done]. rewrite app_nil_r. simpl.
    rewrite length_fmap, Nat.leb_refl. done.
  - destruct selections as [|sel rest]; [done|]. injection Hlen as Hlen.
    cbn [playQuiz qz_currentQuestionIndex qz_score].
    replace (length (parseQuestion <$> answered ++ c :: cards) <=? length answered)%nat
      with false
      by (symmetry; apply Nat.leb_gt; rewrite length_fmap, length_app; simpl; lia).
    unfold handleAnswer. simpl.
    rewrite list_lookup_fmap, list_lookup_middle by done. simpl.
    specialize (IH (answered ++ [c]) rest sc Hlen).
    rewrite length_app, <- app_assoc in IH. simpl in IH.
    rewrite Nat.add_1_r in IH. exact IH.
Qed.

(** C7. What the code does on every quiz the authoring form stores:
    the engine compares the selection with a property [correct] that the
    stored questions do not have (the form writes [correctIndex]), so a
    student who picks the stored correct option of every question ends
    with 0 points out of 10 per question. *)
Theorem authored_quiz_scores_zero id title description duration cards
    totalPoints createdAt :
  match quizForm_submit id title description duration cards totalPoints
                        createdAt with
  | Some game =>
      playQuiz (quiz_questions game) (qc_correct <$> cards) (mkQuizState 0 0)
      = Some (0, Z.of_nat (length cards) * 10)
  | None => cards = []
  end.
Proof.
  destruct (quizForm_submit _ _ _ _ _ _ _) as [game|] eqn:Hsub.
  - apply quiz_questions_authored in Hsub as [_ ->].
    apply (playQuiz_authored cards [] (qc_correct <$> cards) 0).
    by rewrite length_fmap.
  - unfold quizForm_submit in Hsub. rewrite length_fmap in Hsub.
    by destruct cards.
Qed.

(** A one-question quiz, option B marked correct, option B selected. *)
Example quiz_correct_answer_scores_zero :
  let card :=
    mkQuestionCard "2 + 2 = ?" "3" "4" EmptyString EmptyString 1 (Some 10) in
  ∃ game,
    quizForm_submit "q1" "Sums" EmptyString (Some 5) [card] (Some 10) "2024-01-01"
      = Some game ∧
    get_prop (parseQuestion card) "correctIndex" = JNum 1 ∧
    playQuiz (quiz_questions game) [1] (mkQuizState 0 0) = Some (0, 10).
Proof. eexists. repeat split. Qed.

(** ** Debug *)

Lemma levenshtein_refl l : levenshtein l l = 0%nat.
Proof.
  induction l as [|x l IH]; [done|].
  cbn [levenshtein]. fold levenshtein.
  rewrite Ascii.eqb_refl, IH. simpl. lia.
Qed.

Lemma calculateSimilarity_refl s : calculateSimilarity s s = 100.
Proof.
  unfold calculateSimilarity.
  rewrite levenshtein_refl, Nat.max_id, Nat.sub_0_r.
  set (n := Z.of_nat _). unfold js_div.
  destruct (Z.eqb_spec n 0) as [|Hn]; [done|].
  rewrite (Math_round_Qeq _ (inject_Z 100)); [apply Math_round_inject_Z|].
  change (inject_Z 100) with 100%Q. field. by apply inject_Z_nonzero.
Qed.

(** C8. For every debug game, code identical to the stored reference
    solution has similarity 100 and is scored with the game's
    totalPoints. *)
Theorem debug_identical_code_scores_total game :
  calculateSimilarity (dg_perfectCode game) (dg_perfectCode game) = 100 ∧
  checkDebug game (Some (dg_perfectCode game))
  = Some (100, dg_totalPoints game).
Proof.
  split; [apply calculateSimilarity_refl|].
  unfold checkDebug. simpl.
  assert ((if String.eqb (dg_perfectCode game) EmptyString then EmptyString
           else dg_perfectCode game) = dg_perfectCode game) as ->.
  { destruct (String.eqb_spec (dg_perfectCode game) EmptyString); congruence. }
  rewrite calculateSimilarity_refl. do 2 f_equal.
  rewrite (Math_round_Qeq _ (inject_Z (dg_totalPoints game)));
    [apply Math_round_inject_Z|].
  change (inject_Z 100) with 100%Q. field.
Qed.

(** ** Fill-in *)






Lemma length_nonzero_Q {A} (l : list A) :
  l ≠ [] → ¬ (inject_Z (Z.of_nat (length l)) == 0)%Q.
Proof.
  intros Hne. apply inject_Z_nonzero. destruct l; [done|]. simpl. lia.
Qed.








(** * More about the server *)

(** ** Invariants of the store *)

Lemma sum_list_fmap_insert {A} (f : A → nat) (l : list A) i x y :
  l !! i = Some x →
  (sum_list (f <$> <[i:=y]> l) + f x = sum_list (f <$> l) + f y)%nat.
Proof.
  revert i. induction l as [|a l IH]; intros [|i] Hi; simplify_eq/=; [lia|].
  specialize (IH i Hi). lia.
Qed.

Lemma sum_list_fmap_snoc {A} (f : A → nat) (l : list A) x :
  sum_list (f <$> (l ++ [x])) = (sum_list (f <$> l) + f x)%nat.
Proof. rewrite fmap_app, sum_list_with_app. simpl. lia. Qed.

Lemma start_result db user body rng now :
  let qs := Game_aggregate (games db) body rng in
  (qs = [] ∧
   time_attack_start db user body rng now
   = (db, Failure 404 "Not enough questions available to start a Time Attack session.")) ∨
  ((1 ≤ length qs ≤ TIME_ATTACK_QUESTION_COUNT)%nat ∧
   time_attack_start db user body rng now
   = (mkDb (games db) (sessions db ++ [new_session user qs now])
           (submissions db) (leaderboard db),
      StartOk (length (sessions db)) (head qs ≫= Game_findById (games db)))).
Proof.
  intros qs. unfold time_attack_start. fold qs.
  assert (Hle : (length qs ≤ TIME_ATTACK_QUESTION_COUNT)%nat).
  { unfold qs, Game_aggregate. rewrite sample_length. lia. }
  destruct qs as [|q qs']; [by left|right].
  split; [simpl in *; lia|done].
Qed.

Section StoreInvariants.

Variable castObjectId : JsVal → option ObjectId.

Lemma handle_counted db req :
  db_counted db → db_counted (handle castObjectId db req).1.
Proof.
  intros (Hwf & Hsc & Hlb & Hnlb & Hnsub).
  destruct req as [u b rng now|u b now| |gs]; simpl; [| |done|done].
  - (* start *)
    pose proof (start_wf db u b rng now Hwf) as Hwf'.
    destruct (start_result db u b rng now) as [[_ ->]|[Hlen Hr]]; [done|].
    rewrite Hr in Hwf' |- *. split; [done|]. simpl.
    split; [|split; [done|split]].
    + apply Forall_app; split; [done|]. apply Forall_singleton.
      unfold session_scored; simpl. split; [lia|]. split; [done|lia].
    + unfold completed_count. rewrite sum_list_fmap_snoc. simpl.
      fold (completed_count (sessions db)). lia.
    + unfold cursor_total. rewrite sum_list_fmap_snoc. simpl.
      fold (cursor_total (sessions db)). lia.
  - (* submit *)
    pose proof (submit_wf castObjectId db u b now Hwf) as Hwf'.
    destruct (accepted (time_attack_submit castObjectId db u b now).2) eqn:Hacc.
    2: { destruct (time_attack_submit castObjectId db u b now).2
           as [| | | | |c m] eqn:Hr; try done.
         by rewrite (submit_failure _ _ _ _ _ _ _ Hr). }
    destruct (submit_accepted _ _ _ _ _ Hacc)
      as (sid & s & gid & _ & _ & _ & Hs & _ & Hst & Hq & Hdb & _).
    rewrite Hdb in Hwf' |- *. split; [done|]. simpl.
    apply lookup_lt_Some in Hq as Hlt.
    destruct (proj1 (Forall_lookup _ _) Hsc _ _ Hs) as (Hs1 & Hs2 & Hs3).
    assert (Haw : 0 ≤ award (isCorrect b) s
                    ≤ 10 * Z.of_nat (S (currentQuestionIndex s)) ∧
                  award (isCorrect b) s mod 10 = 0).
    { unfold award. destruct (truthy (isCorrect b)); split; try lia.
      rewrite <- Hs2. rewrite <- (Z.mul_1_l 10) at 1.
      by rewrite Z.mod_add. }
    pose proof (sum_list_fmap_insert currentQuestionIndex (sessions db) sid s
                  (advanced (isCorrect b) now s) Hs) as Hcur.
    pose proof (sum_list_fmap_insert
                  (fun s => if bool_decide (status s = Completed) then 1 else 0)%nat
                  (sessions db) sid s (advanced (isCorrect b) now s) Hs) as Hcmp.
    fold (cursor_total (<[sid:=advanced (isCorrect b) now s]> (sessions db)))
      in Hcur.
    fold (cursor_total (sessions db)) in Hcur.
    fold (completed_count (<[sid:=advanced (isCorrect b) now s]> (sessions db)))
      in Hcmp.
    fold (completed_count (sessions db)) in Hcmp.
    cbv beta in Hcmp. rewrite Hst in Hcmp. simpl in Hcmp.
    unfold advanced in *. unfold TIME_ATTACK_QUESTION_COUNT in *.
    destruct (Nat.leb_spec (length (questions s)) (S (currentQuestionIndex s)));
      simpl in *; rewrite ?Hst in Hcmp; simpl in Hcmp.
    + split; [|split; [|split]].
      * apply Forall_insert; [done|].
        unfold session_scored, TIME_ATTACK_QUESTION_COUNT; simpl. lia.
      * apply Forall_app; split; [done|]. apply Forall_singleton.
        unfold entry_scored, TIME_ATTACK_QUESTION_COUNT; simpl. lia.
      * rewrite length_app. simpl. lia.
      * rewrite length_app. simpl. lia.
    + split; [|split; [|split]].
      * apply Forall_insert; [done|].
        unfold session_scored, TIME_ATTACK_QUESTION_COUNT; simpl. lia.
      * done.
      * rewrite Hst. lia.
      * rewrite length_app. simpl. lia.
Qed.

Lemma run_counted reqs db :
  db_counted db → db_counted (run castObjectId db reqs).
Proof.
  revert db. induction reqs as [|r reqs IH]; intros db H; [done|].
  apply IH, handle_counted, H.
Qed.

Lemma empty_db_counted gs : db_counted (empty_db gs).
Proof. repeat split; constructor. Qed.

(** X1. In every state the server reaches from an empty store, each
    session's score is a multiple of 10 between 0 and 10 times its
    cursor, hence at most 50, and each leaderboard row holds a multiple
    of 10 between 0 and 50. *)
Theorem scores_are_bounded_multiples_of_ten gs reqs :
  let db := run castObjectId (empty_db gs) reqs in
  (∀ s, s ∈ sessions db →
     0 ≤ score s ≤ 10 * Z.of_nat (currentQuestionIndex s) ∧
     score s ≤ 50 ∧ score s mod 10 = 0) ∧
  (∀ e, e ∈ leaderboard db → 0 ≤ lb_score e ≤ 50 ∧ lb_score e mod 10 = 0).
Proof.
  intros db.
  destruct (run_counted reqs _ (empty_db_counted gs))
    as (Hwf & Hsc & Hlb & _ & _).
  fold db in Hwf, Hsc, Hlb. split.
  - intros s Hs.
    destruct (proj1 (Forall_forall _ _) Hsc s Hs) as (H1 & H2 & H3).
    destruct (proj1 (Forall_forall _ _) Hwf s Hs) as [H4 _].
    unfold TIME_ATTACK_QUESTION_COUNT in H3. repeat split; try done; lia.
  - intros e He.
    destruct (proj1 (Forall_forall _ _) Hlb e He) as [H1 H2].
    unfold TIME_ATTACK_QUESTION_COUNT in H1. split; [lia|done].
Qed.

(** X2. In every state the server reaches from an empty store, the
    leaderboard has exactly one row per completed session and the
    submission log exactly one record per answered question (the sum of
    the sessions' cursors). *)
Theorem one_row_per_completed_session gs reqs :
  let db := run castObjectId (empty_db gs) reqs in
  length (leaderboard db) = completed_count (sessions db) ∧
  length (submissions db) = cursor_total (sessions db).
Proof.
  intros db.
  by destruct (run_counted reqs _ (empty_db_counted gs))
    as (_ & _ & _ & H1 & H2).
Qed.

End StoreInvariants.

(** ** The questions of a session *)

Lemma NoDup_delete_lookup {A} (l : list A) i x :
  NoDup l → l !! i = Some x → NoDup (delete i l) ∧ x ∉ delete i l.
Proof.
  intros Hnd Hi. rewrite delete_take_drop.
  rewrite <- (take_drop_middle l i x Hi) in Hnd.
  apply NoDup_app in Hnd as (H1 & H2 & H3).
  apply NoDup_cons in H3 as [H3 H4]. split.
  - apply NoDup_app. split; [done|]. split; [|done].
    intros y Hy Hy'. apply (H2 y Hy). by right.
  - intros [Hin|Hin]%elem_of_app; [|done]. apply (H2 x Hin). by left.
Qed.

Lemma sample_NoDup size pool rng i :
  NoDup pool → NoDup (sample size pool rng i).
Proof.
  revert pool i. induction size as [|size IH]; intros pool i Hnd; simpl.
  { constructor. }
  destruct pool as [|p pool]; [constructor|].
  destruct ((p :: pool) !! _) as [x|] eqn:Hx; [|constructor].
  destruct (NoDup_delete_lookup _ _ _ Hnd Hx) as [Hnd' Hnin].
  apply NoDup_cons. split; [|by apply IH].
  intros Hin%sample_elem. done.
Qed.

Lemma NoDup_fmap_filter {A B} (f : A → B) (p : A → bool) (l : list A) :
  NoDup (f <$> l) → NoDup (f <$> List.filter p l).
Proof.
  induction l as [|a l IH]; simpl; [done|].
  intros [Hnin Hnd]%NoDup_cons. destruct (p a); simpl; [|by apply IH].
  apply NoDup_cons. split; [|by apply IH].
  intros (a' & Ha' & Hin)%list_elem_of_fmap. apply Hnin.
  apply list_elem_of_fmap. exists a'. split; [done|].
  apply list_elem_of_In. apply list_elem_of_In in Hin.
  by apply filter_In in Hin as [? _].
Qed.

(** X3. When the ids of the catalog are pairwise distinct, a session
    that start creates never holds the same question twice. *)
Theorem session_questions_are_distinct db user body rng now s :
  NoDup (g_id <$> games db) →
  sessions (time_attack_start db user body rng now).1 !! length (sessions db)
    = Some s →
  NoDup (questions s).
Proof.
  intros Hnd Hs.
  destruct (start_result db user body rng now) as [[_ Hr]|[_ Hr]];
    rewrite Hr in Hs; simpl in Hs.
  - apply lookup_lt_Some in Hs. lia.
  - rewrite list_lookup_middle in Hs by done. injection Hs as <-. simpl.
    unfold Game_aggregate. by apply sample_NoDup, NoDup_fmap_filter.
Qed.

Lemma session_questions_are_distinct_witness :
  NoDup (g_id <$> games (empty_db demo_games)) ∧
  NoDup [100; 101; 103]%nat.
Proof.
  assert (H : NoDup (g_id <$> games (empty_db demo_games))).
  { apply (bool_decide_unpack _). vm_compute. exact I. }
  split; [exact H|].
  exact (session_questions_are_distinct (empty_db demo_games) 1
           (mkStartBody None None) (fun _ => 0%nat) 1000
           (new_session 1 [100; 101; 103]%nat 1000) H eq_refl).
Defined.

(** ** Durations *)

Section Durations.

Variable castObjectId : JsVal → option ObjectId.

Lemma run_durations reqs : ∀ db t,
  Forall (fun s => startTime s ≤ t) (sessions db) →
  Forall (fun e => 0 ≤ lb_timeTakenMs e) (leaderboard db) →
  Forall (fun x => t ≤ x) (clock_readings reqs) →
  StronglySorted Z.le (clock_readings reqs) →
  Forall (fun e => 0 ≤ lb_timeTakenMs e)
         (leaderboard (run castObjectId db reqs)).
Proof.
  induction reqs as [|r reqs IH]; intros db t Hss Hlb Hge Hsorted; [done|].
  assert (Hstep : ∀ now, request_time r = Some now →
    Forall (fun s => startTime s ≤ now) (sessions (handle castObjectId db r).1) ∧
    Forall (fun e => 0 ≤ lb_timeTakenMs e)
           (leaderboard (handle castObjectId db r).1)).
  { intros now Hnow.
    assert (Ht : t ≤ now).
    { unfold clock_readings in Hge. simpl in Hge. rewrite Hnow in Hge.
      by apply Forall_cons in Hge as [? _]. }
    assert (Hss' : Forall (fun s => startTime s ≤ now) (sessions db)).
    { eapply Forall_impl; [exact Hss|]. simpl. intros; lia. }
    destruct r as [u b rng now'|u b now'| |gs]; simplify_eq/=.
    - destruct (start_result db u b rng now) as [[_ ->]|[_ ->]]; simpl;
        [done|].
      split; [|done]. apply Forall_app. split; [done|].
      apply Forall_singleton. simpl. lia.
    - destruct (accepted (time_attack_submit castObjectId db u b now).2)
        eqn:Hacc.
      2: { destruct (time_attack_submit castObjectId db u b now).2
             as [| | | | |c m] eqn:Hr; try done.
           by rewrite (submit_failure _ _ _ _ _ _ _ Hr). }
      destruct (submit_accepted _ _ _ _ _ Hacc)
        as (sid & s & gid & _ & _ & _ & Hs & _ & _ & _ & -> & _).
      simpl.
      pose proof (proj1 (Forall_lookup _ _) Hss' _ _ Hs) as Hst. simpl in Hst.
      split.
      + apply Forall_insert; [done|]. unfold advanced. by case_match.
      + case_match; [|done]. apply Forall_app. split; [done|].
        apply Forall_singleton. simpl. lia. }
  change (run castObjectId db (r :: reqs))
    with (run castObjectId (handle castObjectId db r).1 reqs).
  destruct (request_time r) as [now|] eqn:Hnow.
  - destruct (Hstep now eq_refl) as [H1 H2].
    unfold clock_readings in Hge, Hsorted. simpl in Hge, Hsorted.
    rewrite Hnow in Hge, Hsorted.
    apply StronglySorted_inv in Hsorted as [Hsorted Hall].
    by apply (IH _ now).
  - unfold clock_readings in Hge, Hsorted. simpl in Hge, Hsorted.
    rewrite Hnow in Hge, Hsorted.
    apply (IH _ t); try done.
    all: destruct r; simplify_eq/=; done.
Qed.

(** X4. When the clock does not run backwards from one request to the
    next, no leaderboard row the server writes has a negative
    timeTakenMs. *)
Theorem durations_are_not_negative gs reqs e :
  StronglySorted Z.le (clock_readings reqs) →
  e ∈ leaderboard (run castObjectId (empty_db gs) reqs) →
  0 ≤ lb_timeTakenMs e.
Proof.
  intros Hsorted He.
  assert (Hge : ∃ t, Forall (fun x => t ≤ x) (clock_readings reqs)).
  { destruct (clock_readings reqs) as [|x l] eqn:E; [by exists 0|].
    exists x. apply StronglySorted_inv in Hsorted as [_ Hall].
    constructor; [lia|done]. }
  destruct Hge as [t Hge].
  pose proof (run_durations reqs (empty_db gs) t) as H.
  eapply Forall_forall in H; [exact H|by constructor..|done|done|done].
Qed.

End Durations.

Lemma durations_are_not_negative_witness :
  StronglySorted Z.le (clock_readings demo_play) ∧
  0 ≤ lb_timeTakenMs (mkEntry 1 30 3500 4500).
Proof.
  assert (H : StronglySorted Z.le (clock_readings demo_play)).
  { vm_compute. repeat constructor; discriminate. }
  split; [exact H|].
  apply (durations_are_not_negative unary_id demo_games demo_play _ H).
  vm_compute. left.
Defined.

(** ** The game endpoints *)

Lemma fresh_game_id_fresh gs g : g ∈ gs → g_id g ≠ fresh_game_id gs.
Proof.
  intros Hin. unfold fresh_game_id.
  assert (g_id g ≤ max_list (g_id <$> gs))%nat; [|lia].
  apply max_list_elem_of_le. by apply list_elem_of_fmap_2.
Qed.

Lemma games_create_cases db user body :
  (games_create db user body).1 = db ∧
  (∃ c m, (games_create db user body).2 = GameFailure c m) ∨
  ∃ g,
    games_create db user body
    = (mkDb (games db ++ [g]) (sessions db) (submissions db) (leaderboard db),
       GameCreated g) ∧
    g_id g = fresh_game_id (games db) ∧ g_published g = false ∧
    g_createdBy g = tk_sub user ∧ tk_role user = "admin" ∧
    gb_title body = Some (g_title g) ∧ gb_type body = Some (g_type g) ∧
    gb_difficulty body = Some (g_difficulty g) ∧
    gb_brief body = Some (g_brief g).
Proof.
  unfold games_create, present.
  destruct (gb_title body) as [t|]; simpl; [|left; eauto].
  destruct (String.eqb t EmptyString); simpl; [left; eauto|].
  destruct (gb_type body) as [ty|]; simpl; [|left; eauto].
  destruct (String.eqb ty EmptyString); simpl; [left; eauto|].
  destruct (gb_difficulty body) as [d|]; simpl; [|left; eauto].
  destruct (String.eqb d EmptyString); simpl; [left; eauto|].
  destruct (gb_brief body) as [br|]; simpl; [|left; eauto].
  destruct (String.eqb br EmptyString); simpl; [left; eauto|].
  destruct (String.eqb_spec (tk_role user) "admin") as [Hr|]; simpl;
    [|left; eauto].
  right. eexists. split; [reflexivity|]. simpl. done.
Qed.

(** X5. Creating a game never changes what a time-attack start would
    draw, nor the sessions, submissions or leaderboard: a game is stored
    only for an admin who sent all four fields, under an id no stored
    game has, owned by the caller and unpublished. *)
Theorem created_game_is_not_drawn db user body sb rng :
  let r := games_create db user body in
  Game_aggregate (games r.1) sb rng = Game_aggregate (games db) sb rng ∧
  sessions r.1 = sessions db ∧
  submissions r.1 = submissions db ∧
  leaderboard r.1 = leaderboard db ∧
  (∀ g, r.2 = GameCreated g →
     games r.1 = games db ++ [g] ∧
     tk_role user = "admin" ∧
     g_published g = false ∧ g_createdBy g = tk_sub user ∧
     (∀ g', g' ∈ games db → g_id g' ≠ g_id g) ∧
     gb_title body = Some (g_title g) ∧ gb_type body = Some (g_type g) ∧
     gb_difficulty body = Some (g_difficulty g) ∧
     gb_brief body = Some (g_brief g)) ∧
  (∀ c m, r.2 = GameFailure c m → r.1 = db).
Proof.
  intros r. subst r.
  destruct (games_create_cases db user body)
    as [[Hdb (c & m & Hr)]|(g & Hr & Hid & Hpub & Hown & Hrole & Hf)].
  - rewrite Hdb, Hr. repeat split; try done.
  - rewrite Hr. simpl.
    split; [|split; [done|split; [done|split; [done|split; [|done]]]]].
    + assert (Hq : query_matches sb g = false)
        by (unfold query_matches; by rewrite Hpub).
      unfold Game_aggregate. rewrite List.filter_app. simpl.
      by rewrite Hq, app_nil_r.
    + intros g0 [= <-]. repeat split; try done; try apply Hf.
      intros g' Hg'. rewrite Hid. by apply fresh_game_id_fresh.
Qed.

Section PublishFacts.

Variable castObjectId : JsVal → option ObjectId.

Lemma save_published_lookup gid gs i g :
  gs !! i = Some g →
  ∃ g', save_published gid gs !! i = Some g' ∧
        (g' = g ∨ (g' = publish g ∧ g_id g = gid ∧
                   List.find (fun g => Nat.eqb (g_id g) gid) gs = Some g)).
Proof.
  revert i. induction gs as [|a gs IH]; intros i Hi; [done|].
  simpl. destruct (Nat.eqb_spec (g_id a) gid) as [E|Hne].
  - destruct i as [|i]; simplify_eq/=; eauto 10.
  - destruct i as [|i]; simplify_eq/=; [eauto|].
    destruct (IH i Hi) as (g' & Hg' & Hcase). eauto.
Qed.

Lemma save_published_length gid gs :
  length (save_published gid gs) = length gs.
Proof.
  induction gs as [|a gs IH]; [done|]. simpl.
  destruct (Nat.eqb (g_id a) gid); simpl; by rewrite ?IH.
Qed.

(** X6. Publishing never touches sessions, submissions or leaderboard,
    never adds or removes a game and never changes a stored game except
    to set its published flag; it sets the flag only for a game that the
    request names, for a caller who is an admin and the game's creator,
    and it never resets a flag. *)
Theorem publish_only_sets_own_flag db user id :
  let r := games_publish castObjectId db user id in
  sessions r.1 = sessions db ∧
  submissions r.1 = submissions db ∧
  leaderboard r.1 = leaderboard db ∧
  length (games r.1) = length (games db) ∧
  (∀ i g, games db !! i = Some g →
     ∃ g', games r.1 !! i = Some g' ∧
       g_id g' = g_id g ∧ g_title g' = g_title g ∧ g_type g' = g_type g ∧
       g_difficulty g' = g_difficulty g ∧ g_brief g' = g_brief g ∧
       g_createdBy g' = g_createdBy g ∧
       (g_published g = true → g_published g' = true) ∧
       (g_published g' ≠ g_published g →
        tk_role user = "admin" ∧ g_createdBy g = tk_sub user ∧
        castObjectId (JStr id) = Some (g_id g))) ∧
  (∀ c m, r.2 = GameFailure c m → r.1 = db).
Proof.
  intros r. subst r. unfold games_publish.
  assert (Hsame : ∀ i g, games db !! i = Some g →
    ∃ g', games db !! i = Some g' ∧
       g_id g' = g_id g ∧ g_title g' = g_title g ∧ g_type g' = g_type g ∧
       g_difficulty g' = g_difficulty g ∧ g_brief g' = g_brief g ∧
       g_createdBy g' = g_createdBy g ∧
       (g_published g = true → g_published g' = true) ∧
       (g_published g' ≠ g_published g →
        tk_role user = "admin" ∧ g_createdBy g = tk_sub user ∧
        castObjectId (JStr id) = Some (g_id g))).
  { intros i g Hg. exists g. repeat split; done. }
  destruct (String.eqb_spec (tk_role user) "admin") as [Hrole|]; simpl;
    [|by repeat split].
  destruct (castObjectId (JStr id)) as [gid|] eqn:Hc; [|by repeat split].
  destruct (List.find _ (games db)) as [game|] eqn:Hfind; [|by repeat split].
  destruct (Nat.eqb_spec (g_createdBy game) (tk_sub user)) as [Hown|]; simpl;
    [|by repeat split].
  split; [done|]. split; [done|]. split; [done|].
  split; [apply save_published_length|]. split; [|done].
  intros i g Hg.
  destruct (save_published_lookup gid _ _ _ Hg)
    as (g' & Hg' & [->|(-> & Hid & Hfind')]).
  - exists g. repeat split; done.
  - exists (publish g). rewrite Hfind in Hfind'. injection Hfind' as ->.
    subst gid. repeat split; done.
Qed.

(** X7. A game that an admin creates and then publishes under the id it
    was given is stored published, and it is among the games a start
    without filters draws from. *)
Theorem created_then_published_is_eligible db user body id g :
  (games_create db user body).2 = GameCreated g →
  castObjectId (JStr id) = Some (g_id g) →
  let db1 := (games_create db user body).1 in
  let r := games_publish castObjectId db1 user id in
  r.2 = GamePublished (publish g) ∧
  games r.1 = games db ++ [publish g] ∧
  g_id g ∈ g_id <$> List.filter (query_matches (mkStartBody None None))
                                (games r.1).
Proof.
  intros Hr Hc db1 r.
  destruct (games_create_cases db user body)
    as [[_ (c & m & Hr')]|(g0 & Hcr & Hid & Hpub & Hown & Hrole & _)];
    [congruence|].
  rewrite Hcr in Hr. injection Hr as ->.
  assert (Hfresh : ∀ g', g' ∈ games db → Nat.eqb (g_id g') (g_id g) = false).
  { intros g' Hg'. apply Nat.eqb_neq. rewrite Hid.
    by apply fresh_game_id_fresh. }
  assert (Hfind : List.find (fun g' => Nat.eqb (g_id g') (g_id g))
                            (games db ++ [g]) = Some g).
  { clear -Hfresh. induction (games db) as [|a l IH]; simpl.
    - by rewrite Nat.eqb_refl.
    - rewrite Hfresh by left. apply IH. intros g' Hg'. apply Hfresh.
      by right. }
  assert (Hsave : save_published (g_id g) (games db ++ [g])
                  = games db ++ [publish g]).
  { clear -Hfresh. induction (games db) as [|a l IH]; simpl.
    - by rewrite Nat.eqb_refl.
    - rewrite Hfresh by left. f_equal. apply IH. intros g' Hg'.
      apply Hfresh. by right. }
  assert (Hres : r = (mkDb (games db ++ [publish g]) (sessions db)
                           (submissions db) (leaderboard db),
                      GamePublished (publish g))).
  { subst r db1. rewrite Hcr. unfold games_publish. simpl.
    rewrite Hrole, Hc. simpl. rewrite Hfind, Hown, Nat.eqb_refl. simpl.
    by rewrite Hsave. }
  rewrite Hres. simpl. split; [done|]. split; [done|].
  rewrite List.filter_app, fmap_app. apply elem_of_app. right. simpl. left.
Qed.

End PublishFacts.

Lemma sample_all size pool rng i :
  (length pool ≤ size)%nat → sample size pool rng i ≡ₚ pool.
Proof.
  revert pool i. induction size as [|size IH]; intros pool i Hlen; simpl.
  { destruct pool; [done|simpl in Hlen; lia]. }
  destruct pool as [|p pool]; [done|].
  set (j := (rng i mod length (p :: pool))%nat).
  assert (Hj : (j < length (p :: pool))%nat)
    by (apply Nat.mod_upper_bound; simpl; lia).
  destruct (lookup_lt_is_Some_2 _ _ Hj) as [x Hx]. rewrite Hx.
  transitivity (x :: delete j (p :: pool));
    [|symmetry; by apply delete_Permutation].
  constructor. apply IH. rewrite length_delete by eauto. simpl in *. lia.
Qed.

(** X8. When at most five published games match the filters, the
    questions start draws are exactly those games, each once, in some
    order. *)
Theorem small_catalog_is_drawn_whole gs body rng :
  (length (List.filter (query_matches body) gs) ≤ TIME_ATTACK_QUESTION_COUNT)%nat →
  Game_aggregate gs body rng
    ≡ₚ g_id <$> List.filter (query_matches body) gs.
Proof.
  intros Hlen. unfold Game_aggregate. apply sample_all.
  by rewrite length_fmap.
Qed.

(** ** Accounts *)

Lemma prefix_ci_agree p q s :
  prefix_ci p s = true → prefix_ci q s = true → agree_ci p q = true.
Proof.
  revert q s. induction p as [|a p IH]; intros [|b q] [|c s]; simpl; try done.
  intros [Ha Hp]%andb_prop [Hb Hq]%andb_prop.
  apply Ascii.eqb_eq in Ha, Hb. rewrite Ha, Hb, Ascii.eqb_refl. simpl.
  by eapply IH.
Qed.

Lemma sanitizeRole_cases role :
  sanitizeRole role = "student" ∨ sanitizeRole role = "admin".
Proof.
  destruct role as [r|]; simpl; [|by left].
  destruct (String.eqb_spec r "student") as [->|]; simpl; [by left|].
  destruct (String.eqb_spec r "admin") as [->|]; simpl; [by right|by left].
Qed.

(** X9. No address passes the campus check for both roles, and the role
    a request is handled under is always student or admin: whatever else
    is sent counts as student. *)
Theorem no_email_fits_both_roles email role :
  STUDENT_EMAIL_REGEX email && ADMIN_EMAIL_REGEX email = false ∧
  validateEmail email "student" && validateEmail email "admin" = false ∧
  (sanitizeRole role = "student" ∨ sanitizeRole role = "admin") ∧
  (role ≠ Some "admin" → sanitizeRole role = "student").
Proof.
  assert (H : STUDENT_EMAIL_REGEX email && ADMIN_EMAIL_REGEX email = false).
  { destruct (STUDENT_EMAIL_REGEX email) eqn:Hs; [|done].
    destruct (ADMIN_EMAIL_REGEX email) eqn:Ha; [|done].
    pose proof (prefix_ci_agree _ _ _ Hs Ha) as Hag.
    vm_compute in Hag. done. }
  split; [done|]. split; [|split; [apply sanitizeRole_cases|]].
  - unfold validateEmail. destruct (String.eqb email EmptyString); [done|].
    simpl. by rewrite andb_comm in H |- *.
  - intros Hne. destruct role as [r|]; simpl; [|done].
    destruct (String.eqb_spec r "student") as [->|]; simpl; [done|].
    destruct (String.eqb_spec r "admin") as [->|]; simpl; [done|done].
Qed.

Lemma latest_pending_lookup email now rs : ∀ i best j r,
  latest_pending email now rs i best = Some (j, r) →
  best = Some (j, r) ∨
  ((i ≤ j)%nat ∧ rs !! (j - i)%nat = Some r ∧ pending email now r = true).
Proof.
  induction rs as [|x rs IH]; intros i best j r H; simpl in H; [by left|].
  apply IH in H as [H|(Hle & Hl & Hp)].
  - destruct (pending email now x) eqn:Hp; [|by left].
    destruct best as [[k b]|].
    + destruct (pr_createdAt b <=? pr_createdAt x); [|by left].
      injection H as <- <-. right. by rewrite Nat.sub_diag.
    + injection H as <- <-. right. by rewrite Nat.sub_diag.
  - right. split; [lia|]. split; [|done].
    replace (j - i)%nat with (S (j - S i)) by lia. done.
Qed.

Lemma latest_pending_None email now rs : ∀ i,
  latest_pending email now rs i None = None ↔
  Forall (fun r => pending email now r = false) rs.
Proof.
  induction rs as [|x rs IH]; intros i; simpl; [by split; [constructor|]|].
  destruct (pending email now x) eqn:Hp.
  - split.
    + intros H. exfalso. revert H. generalize (S i), (i, x).
      clear. induction rs as [|y rs IH]; intros k p; simpl; [done|].
      destruct (pending email now y); [|apply IH].
      destruct p as [? b]. destruct (_ <=? _); apply IH.
    + intros H%Forall_cons_1. destruct H; congruence.
  - rewrite IH. split; [by constructor|]. by intros [_ ?]%Forall_cons_1.
Qed.

Section AccountFacts.

Variable toLowerCase : string → string.
Variable bcrypt_hash : string → nat → string.
Variable bcrypt_compare : string → string → bool.
Variable signToken : Z → ObjectId → User → string.

Local Abbreviation signup' := (signup toLowerCase bcrypt_hash signToken).
Local Abbreviation login' := (login toLowerCase bcrypt_compare signToken).
Local Abbreviation forgot' := (password_forgot toLowerCase bcrypt_hash).
Local Abbreviation reset' :=
  (password_reset toLowerCase bcrypt_hash bcrypt_compare).
Local Abbreviation handle' :=
  (auth_handle toLowerCase bcrypt_hash bcrypt_compare signToken).
Local Abbreviation run' :=
  (auth_run toLowerCase bcrypt_hash bcrypt_compare signToken).

(** A signup that stores an account, spelled out. *)
Lemma signup_cases a body salt now :
  ((signup' a body salt now).1 = a ∧
   ∃ c m, (signup' a body salt now).2 = Message c m) ∨
  ∃ name email password,
    su_name body = Some name ∧ su_email body = Some email ∧
    su_password body = Some password ∧
    validateEmail email (sanitizeRole (su_role body)) = true ∧
    validatePassword password = true ∧
    (toLowerCase email ∉ u_email <$> users a) ∧
    let user := mkUser name (toLowerCase email) (bcrypt_hash password salt)
                       (sanitizeRole (su_role body)) in
    signup' a body salt now
    = (mkAccounts (users a ++ [user]) (resetRequests a) (adminNotifications a),
       SignedIn 201 (signToken now (length (users a)) user) (user_view user)).
Proof.
  unfold signup, present.
  destruct (su_name body) as [name|]; simpl; [|left; eauto].
  destruct (String.eqb name EmptyString); simpl; [left; eauto|].
  destruct (su_email body) as [email|]; simpl; [|left; eauto].
  destruct (String.eqb email EmptyString); simpl; [left; eauto|].
  destruct (su_password body) as [password|]; simpl; [|left; eauto].
  destruct (String.eqb password EmptyString); simpl; [left; eauto|].
  destruct (validateEmail email _) eqn:Hv; simpl; [|left; eauto].
  destruct (validatePassword password) eqn:Hp; simpl; [|left; eauto].
  case_bool_decide as Hin; [left; eauto|].
  right. exists name, email, password. done.
Qed.

Lemma fmap_insert_same {A B} (f : A → B) (l : list A) i x y :
  l !! i = Some x → f y = f x → f <$> <[i:=y]> l = f <$> l.
Proof.
  intros Hi Hf. rewrite list_fmap_insert, Hf.
  apply list_insert_id. by rewrite list_lookup_fmap, Hi.
Qed.

Lemma auth_handle_wf a req :
  accounts_wf toLowerCase a → accounts_wf toLowerCase (handle' a req).1.
Proof.
  intros (Hnd & Hus & Hrs).
  destruct req as [b salt t|b t|e code salt sent now|b salt now];
    simpl; [| done | |].
  - (* signup *)
    destruct (signup_cases a b salt t)
      as [[-> _]|(name & email & password & _ & _ & _ & Hv & _ & Hnin & ->)];
      [done|].
    split; [|split]; simpl.
    + rewrite fmap_app. apply NoDup_app. split; [done|]. split.
      * intros x Hx [->|[]%elem_of_nil]%elem_of_cons. done.
      * apply NoDup_singleton.
    + apply Forall_app. split; [done|]. apply Forall_singleton.
      split; [apply sanitizeRole_cases|]. simpl. eauto.
    + eapply Forall_impl; [exact Hrs|]. intros r [Hr1 Hr2].
      split; [|done]. simpl. rewrite fmap_app. apply elem_of_app. by left.
  - (* forgot *)
    unfold password_forgot. destruct (present e); simpl; [|done].
    destruct (list_find _ (users a)) as [[i u]|] eqn:Hf; [|done].
    apply list_find_Some in Hf as (Hi & _ & _).
    split; [done|]. split; [done|]. simpl.
    apply Forall_app. split.
    + eapply Forall_impl; [exact Hrs|]. by intros r [? ?].
    + apply Forall_singleton. split; simpl; [|lia].
      apply list_elem_of_fmap. exists u. split; [done|].
      by eapply list_elem_of_lookup_2.
  - (* reset *)
    unfold password_reset.
    destruct (_ || _); simpl; [done|].
    destruct (validatePassword _); simpl; [|done].
    destruct (latest_pending _ _ _ _ _) as [[ri r]|] eqn:Hl; [|done].
    destruct (bcrypt_compare _ _); simpl; [|done].
    destruct (list_find _ (users a)) as [[ui u]|] eqn:Hf; [|done].
    apply list_find_Some in Hf as (Hui & _ & _).
    apply latest_pending_lookup in Hl as [?|(_ & Hri & _)]; [done|].
    rewrite Nat.sub_0_r in Hri.
    assert (Hem : u_email <$> <[ui:=mkUser (u_name u) (u_email u)
                    (bcrypt_hash (default EmptyString (rs_newPassword b)) salt)
                    (u_role u)]> (users a) = u_email <$> users a).
    { by apply (fmap_insert_same u_email _ _ u). }
    split; [|split]; simpl.
    + by rewrite Hem.
    + apply Forall_insert; [done|].
      apply (proj1 (Forall_lookup _ _) Hus) in Hui. exact Hui.
    + apply Forall_insert.
      * eapply Forall_impl; [exact Hrs|]. intros r' [? ?].
        split; [|done]. simpl. by rewrite Hem.
      * apply (proj1 (Forall_lookup _ _) Hrs) in Hri as [? ?].
        split; [|done]. simpl. by rewrite Hem.
Qed.

Lemma auth_run_wf reqs a :
  accounts_wf toLowerCase a → accounts_wf toLowerCase (run' a reqs).
Proof.
  revert a. induction reqs as [|r reqs IH]; intros a H; [done|].
  apply IH, auth_handle_wf, H.
Qed.

(** X10. Whatever account requests the server has handled, starting from
    no accounts: no two accounts share an email, every account is a
    student or an admin whose email is the lower-cased form of an address
    that passes the campus check for that role, and every reset request
    names the email of a stored account and expires ten minutes after it
    was created. *)
Theorem accounts_stay_well_formed reqs :
  let a := run' no_accounts reqs in
  NoDup (u_email <$> users a) ∧
  (∀ u, u ∈ users a →
     (u_role u = "student" ∨ u_role u = "admin") ∧
     ∃ e, u_email u = toLowerCase e ∧ validateEmail e (u_role u) = true) ∧
  (∀ r, r ∈ resetRequests a →
     (∃ u, u ∈ users a ∧ u_email u = pr_email r) ∧
     pr_expiresAt r = pr_createdAt r + 10 * 60 * 1000).
Proof.
  intros a.
  assert (Hwf : accounts_wf toLowerCase a).
  { apply auth_run_wf. repeat split; constructor. }
  destruct Hwf as (Hnd & Hus & Hrs). split; [done|]. split.
  - intros u Hu. exact (proj1 (Forall_forall _ _) Hus u Hu).
  - intros r Hr. destruct (proj1 (Forall_forall _ _) Hrs r Hr) as [H1 H2].
    split; [|lia]. apply list_elem_of_fmap in H1 as (u & ? & ?). eauto.
Qed.

End AccountFacts.

Lemma latest_pending_snoc email now rs r : ∀ i best,
  latest_pending email now (rs ++ [r]) i best
  = let b := latest_pending email now rs i best in
    if pending email now r then
      match b with
      | Some (_, b') =>
          if pr_createdAt b' <=? pr_createdAt r
          then Some ((i + length rs)%nat, r) else b
      | None => Some ((i + length rs)%nat, r)
      end
    else b.
Proof.
  induction rs as [|x rs IH]; intros i best; simpl.
  - by rewrite Nat.add_0_r.
  - rewrite IH. simpl. by rewrite !Nat.add_succ_r.
Qed.

Lemma validateEmail_nonempty email role :
  validateEmail email role = true → String.eqb email EmptyString = false.
Proof. unfold validateEmail. by destruct (String.eqb email EmptyString). Qed.

Lemma validatePassword_nonempty password :
  validatePassword password = true → String.eqb password EmptyString = false.
Proof.
  unfold validatePassword. by destruct (String.eqb password EmptyString).
Qed.

Lemma sanitizeRole_fixed role :
  role = "student" ∨ role = "admin" → sanitizeRole (Some role) = role.
Proof. by intros [-> | ->]. Qed.

Section AccountRoundTrips.

Variable toLowerCase : string → string.
Variable bcrypt_hash : string → nat → string.
Variable bcrypt_compare : string → string → bool.
Variable signToken : Z → ObjectId → User → string.

Local Abbreviation signup' := (signup toLowerCase bcrypt_hash signToken).
Local Abbreviation login' := (login toLowerCase bcrypt_compare signToken).
Local Abbreviation forgot' := (password_forgot toLowerCase bcrypt_hash).
Local Abbreviation reset' :=
  (password_reset toLowerCase bcrypt_hash bcrypt_compare).

(** Login finds the one account stored under an email and role. *)
Lemma login_stored a i u email password now :
  NoDup (u_email <$> users a) →
  users a !! i = Some u →
  u_email u = toLowerCase email →
  validateEmail email (u_role u) = true →
  u_role u = "student" ∨ u_role u = "admin" →
  String.eqb password EmptyString = false →
  login' a (mkLoginBody (Some email) (Some password) (Some (u_role u))) now
  = if bcrypt_compare password (u_password u)
    then SignedIn 200 (signToken now i u) (user_view u)
    else Message 401 "Invalid credentials".
Proof.
  intros Hnd Hi Hem Hv Hrole Hp. unfold login, present.
  cbv zeta. cbn [li_email li_password li_role default from_option id].
  rewrite (validateEmail_nonempty _ _ Hv), Hp, (sanitizeRole_fixed _ Hrole).
  cbn [negb orb]. rewrite Hv. cbn [negb].
  assert (Hf : list_find (fun u' => u_email u' = toLowerCase email
                                     ∧ u_role u' = u_role u) (users a)
               = Some (i, u)).
  { apply list_find_Some. split; [done|]. split; [done|].
    intros j y Hj Hlt [Hy _].
    assert (i = j); [|lia].
    eapply (NoDup_lookup _ _ _ _ Hnd); rewrite list_lookup_fmap.
    - by rewrite Hi.
    - rewrite Hj. simpl. congruence. }
  by rewrite Hf.
Qed.

(** X11. An account that signup has just stored can sign in: login with
    the same password and role, and with the same address in any spelling
    that lower-cases to the stored email and passes the campus check,
    answers 200 with the user signup sent and with a token signed for the
    same account as signup's token, each stamped with the time of its own
    request, provided [bcrypt.compare] accepts the password against the
    hash signup stored. *)
Theorem signup_then_login a body salt now email' tok view now' :
  NoDup (u_email <$> users a) →
  bcrypt_compare (default EmptyString (su_password body))
                 (bcrypt_hash (default EmptyString (su_password body)) salt)
    = true →
  (signup' a body salt now).2 = SignedIn 201 tok view →
  toLowerCase email' = toLowerCase (default EmptyString (su_email body)) →
  validateEmail email' (sanitizeRole (su_role body)) = true →
  ∃ uid user,
    users (signup' a body salt now).1 !! uid = Some user ∧
    users a !! uid = None ∧
    view = user_view user ∧
    tok = signToken now uid user ∧
    login' (signup' a body salt now).1
           (mkLoginBody (Some email') (su_password body)
                        (Some (sanitizeRole (su_role body)))) now'
    = SignedIn 200 (signToken now' uid user) view.
Proof.
  intros Hnd Hcmp Hr Hlow Hv'.
  destruct (signup_cases toLowerCase bcrypt_hash signToken a body salt now)
    as [[_ (c & m & Hm)]|(name & email & password & Hn & He & Hp & Hv & Hvp
                           & Hnin & Hs)]; [congruence|].
  rewrite Hs in Hr |- *. simpl in Hr. injection Hr as <- <-.
  rewrite Hp, He in *. simpl in *.
  set (user := mkUser name (toLowerCase email) (bcrypt_hash password salt)
                      (sanitizeRole (su_role body))).
  exists (length (users a)), user.
  split; [by apply list_lookup_middle|].
  split; [by apply lookup_ge_None_2|].
  split; [done|]. split; [done|].
  rewrite (login_stored _ (length (users a)) user email' password); simpl.
  - by rewrite Hcmp.
  - rewrite fmap_app. apply NoDup_app. split; [done|]. split.
    + intros x Hx [->|[]%elem_of_nil]%elem_of_cons. done.
    + apply NoDup_singleton.
  - by apply list_lookup_middle.
  - done.
  - done.
  - apply sanitizeRole_cases.
  - by apply validatePassword_nonempty.
Qed.

(** X12. A reset code that forgot has just issued for a stored account
    works until its ten minutes are over: reset with that code and a
    password of six characters or more, sent before the expiry, answers
    200, stores the hash of the new password in that account and in no
    other, marks the request used and logs one admin notification; sent
    at or after the expiry, with no older request still pending, it
    answers 400 and changes nothing.  After the reset the account signs
    in with the new password. *)
Theorem forgot_then_reset a i u email code salt1 sent t0 newPassword salt2 t1
    t2 :
  NoDup (u_email <$> users a) →
  users a !! i = Some u →
  u_email u = toLowerCase email →
  String.eqb email EmptyString = false →
  String.eqb code EmptyString = false →
  validatePassword newPassword = true →
  bcrypt_compare code (bcrypt_hash code salt1) = true →
  Forall (fun r => pr_createdAt r < t0) (resetRequests a) →
  let a1 := (forgot' a (Some email) code salt1 sent t0).1 in
  let r := reset' a1 (mkResetBody (Some email) (Some code) (Some newPassword))
                  salt2 t1 in
  let u' := mkUser (u_name u) (u_email u) (bcrypt_hash newPassword salt2)
                   (u_role u) in
  let issued used :=
    mkResetRequest (u_email u) (bcrypt_hash code salt1) (t0 + 600000) used t0 in
  a1 = mkAccounts (users a) (resetRequests a ++ [issued false])
                  (adminNotifications a) ∧
  (t1 < t0 + 600000 →
   r = (mkAccounts (<[i := u']> (users a))
                   (resetRequests a ++ [issued true])
                   (adminNotifications a ++
                      [mkAdminNotification "Password reset completed"
                                           (u_email u) t1]),
        Message 200 "Password updated successfully") ∧
   (bcrypt_compare newPassword (bcrypt_hash newPassword salt2) = true →
    validateEmail email (u_role u) = true →
    u_role u = "student" ∨ u_role u = "admin" →
    login' r.1 (mkLoginBody (Some email) (Some newPassword) (Some (u_role u)))
           t2
    = SignedIn 200 (signToken t2 i u') (user_view u'))) ∧
  (t0 + 600000 ≤ t1 →
   Forall (fun r => pending (toLowerCase email) t1 r = false)
          (resetRequests a) →
   r = (a1, Message 400 "No valid reset request found")).
Proof.
  intros Hnd Hi Hem He Hc Hvp Hcmp Hold a1 r u' issued.
  assert (Hf : list_find (fun u' => u_email u' = toLowerCase email) (users a)
               = Some (i, u)).
  { apply list_find_Some. split; [done|]. split; [done|].
    intros j y Hj Hlt Hy. assert (i = j); [|lia].
    eapply (NoDup_lookup _ _ _ _ Hnd); rewrite list_lookup_fmap.
    - by rewrite Hi.
    - rewrite Hj. simpl. congruence. }
  assert (Ha1 : a1 = mkAccounts (users a) (resetRequests a ++ [issued false])
                                (adminNotifications a)).
  { subst a1. unfold password_forgot, present. simpl. rewrite He. simpl.
    rewrite Hf. simpl. unfold issued. do 3 f_equal. }
  assert (Hr : r = if negb (validatePassword newPassword) then
                     (a1, Message 400 "Password must be at least 6 characters")
                   else
      match latest_pending (toLowerCase email) t1 (resetRequests a1) 0 None with
      | None => (a1, Message 400 "No valid reset request found")
      | Some (ri, requestRecord) =>
          if negb (bcrypt_compare code (pr_codeHash requestRecord))
          then (a1, Message 400 "Invalid verification code")
          else
            match list_find (fun u => u_email u = toLowerCase email)
                            (users a1) with
            | None => (a1, Message 404 "User not found")
            | Some (ui, user) =>
                (mkAccounts
                   (<[ui := mkUser (u_name user) (u_email user)
                                   (bcrypt_hash newPassword salt2)
                                   (u_role user)]> (users a1))
                   (<[ri := mkResetRequest (pr_email requestRecord)
                                           (pr_codeHash requestRecord)
                                           (pr_expiresAt requestRecord) true
                                           (pr_createdAt requestRecord)]>
                      (resetRequests a1))
                   (adminNotifications a1 ++
                      [mkAdminNotification "Password reset completed"
                                           (u_email user) t1]),
                 Message 200 "Password updated successfully")
            end
      end).
  { subst r. unfold password_reset, present. simpl.
    by rewrite He, Hc, (validatePassword_nonempty _ Hvp). }
  rewrite Hvp in Hr. simpl in Hr. rewrite Ha1 in Hr. simpl in Hr.
  split; [done|]. split.
  - intros Hlt.
    assert (Hpend : pending (toLowerCase email) t1 (issued false) = true).
    { unfold pending, issued. simpl. rewrite Hem, String.eqb_refl. simpl.
      apply Z.ltb_lt. lia. }
    assert (Hlatest :
      latest_pending (toLowerCase email) t1
                     (resetRequests a ++ [issued false]) 0 None
      = Some (length (resetRequests a), issued false)).
    { rewrite latest_pending_snoc. cbv zeta. rewrite Hpend.
      destruct (latest_pending (toLowerCase email) t1 (resetRequests a) 0 None)
        as [[j b]|] eqn:Hl; [|done].
      apply latest_pending_lookup in Hl as [?|(_ & Hj & _)]; [done|].
      apply (proj1 (Forall_lookup _ _) Hold) in Hj. simpl in *.
      by replace (pr_createdAt b <=? t0) with true
        by (symmetry; apply Z.leb_le; lia). }
    rewrite Hlatest in Hr. simpl in Hr. rewrite Hcmp, Hf in Hr. simpl in Hr.
    rewrite insert_app_r_alt, Nat.sub_diag in Hr by lia. simpl in Hr.
    split; [by rewrite Hr|].
    intros Hcmp' Hv Hrole. rewrite Hr. simpl.
    rewrite (login_stored _ i u' email newPassword); simpl.
    + by rewrite Hcmp'.
    + by rewrite (fmap_insert_same u_email _ _ u).
    + apply list_lookup_insert_eq. by eapply lookup_lt_Some.
    + done.
    + done.
    + done.
    + by apply validatePassword_nonempty.
  - intros Hge Hnone.
    assert (Hpend : pending (toLowerCase email) t1 (issued false) = false).
    { unfold pending, issued. simpl.
      replace (t1 <? t0 + 600000) with false
        by (symmetry; apply Z.ltb_ge; lia).
      by rewrite andb_false_r. }
    assert (Hlatest :
      latest_pending (toLowerCase email) t1
                     (resetRequests a ++ [issued false]) 0 None = None).
    { rewrite latest_pending_snoc. cbv zeta. rewrite Hpend.
      by apply latest_pending_None. }
    rewrite Hlatest in Hr. by rewrite Hr, Ha1.
Qed.


End AccountRoundTrips.

(** ** Material statistics *)

Lemma count_up_lookup_ne k k' obj :
  k ≠ k' → count_up k' obj !! k = obj !! k.
Proof.
  intros Hne. unfold count_up.
  destruct (obj !! k') as [[n|s]|];
    repeat case_match; by rewrite ?lookup_insert_ne.
Qed.

Lemma not_inherited k :
  k ∉ Object_prototype →
  String.eqb k "__proto__" = false ∧
  bool_decide (k ∈ Object_prototype) = false.
Proof.
  intros Hk. split.
  - destruct (String.eqb_spec k "__proto__") as [->|]; [|done].
    destruct Hk. unfold Object_prototype. set_solver.
  - by apply bool_decide_eq_false.
Qed.

Lemma count_up_lookup_eq k obj c :
  k ∉ Object_prototype → obj !! k = tally_of c →
  count_up k obj !! k = tally_of (S c).
Proof.
  intros Hk Hc. destruct (not_inherited k Hk) as [Hp Hin].
  unfold count_up, tally_of in *. rewrite Hc.
  destruct c as [|c]; simpl.
  - rewrite Hp, Hin. by rewrite lookup_insert_eq.
  - by rewrite lookup_insert_eq.
Qed.

Lemma foldl_count_up_lookup {A} (key : A → string) k (l : list A) :
  k ∉ Object_prototype →
  ∀ obj c, obj !! k = tally_of c →
  foldl (fun obj x => count_up (key x) obj) obj l !! k
  = tally_of (c + length (filter (fun x => key x = k) l)).
Proof.
  intros Hk. induction l as [|x l IH]; intros obj c Hc; simpl.
  { by rewrite Nat.add_0_r. }
  destruct (decide (key x = k)) as [Hx|Hx].
  - rewrite filter_cons_True by done. simpl.
    rewrite (IH _ (S c)); [f_equal; lia|].
    rewrite Hx. by apply count_up_lookup_eq.
  - rewrite filter_cons_False by done.
    apply IH. by rewrite count_up_lookup_ne.
Qed.

Lemma append_nonempty s t : t ≠ EmptyString → String.append s t ≠ EmptyString.
Proof. destruct s; simpl; [done|discriminate]. Qed.

Lemma count_up_uncounted k k' obj :
  k ∈ Object_prototype → uncounted obj k → uncounted (count_up k' obj) k.
Proof.
  intros Hk Hun. destruct (decide (k = k')) as [<-|Hne].
  - unfold uncounted, count_up in *.
    destruct Hun as [Hn|(s & Hs & Hne)].
    + rewrite Hn. destruct (String.eqb k "__proto__"); [by left|].
      rewrite bool_decide_eq_true_2 by done. right.
      rewrite lookup_insert_eq. eexists. split; [done|].
      unfold inherited_plus_1. apply append_nonempty, append_nonempty. done.
    + rewrite Hs. destruct (String.eqb_spec s EmptyString) as [|_]; [done|].
      right. rewrite lookup_insert_eq. eexists. split; [done|].
      by apply append_nonempty.
  - unfold uncounted. by rewrite count_up_lookup_ne.
Qed.

Lemma foldl_count_up_uncounted {A} (key : A → string) k (l : list A) :
  k ∈ Object_prototype → ∀ obj, uncounted obj k →
  uncounted (foldl (fun obj x => count_up (key x) obj) obj l) k.
Proof.
  intros Hk. induction l as [|x l IH]; intros obj Hun; simpl; [done|].
  apply IH. by apply count_up_uncounted.
Qed.

Lemma counts_total_insert_fresh k t obj :
  obj !! k = None →
  counts_total (<[k := t]> obj) = (tally_weight t + counts_total obj)%nat.
Proof.
  intros Hk. unfold counts_total.
  rewrite map_fold_insert_L; [done| |done]. intros; lia.
Qed.

Lemma count_up_counts k obj :
  k ∉ Object_prototype → counts_only obj →
  counts_only (count_up k obj) ∧
  counts_total (count_up k obj) = S (counts_total obj).
Proof.
  intros Hk Hobj. destruct (not_inherited k Hk) as [Hp Hin].
  assert (Hins : ∀ n, counts_only (<[k := Count n]> obj)).
  { intros n k' t' Hk'. destruct (decide (k' = k)) as [->|Hne].
    - rewrite lookup_insert_eq in Hk'. injection Hk' as <-. eauto.
    - rewrite lookup_insert_ne in Hk' by done. by eapply Hobj. }
  unfold count_up. destruct (obj !! k) as [t|] eqn:Ht.
  - destruct (Hobj k t Ht) as [n ->]. split; [done|].
    rewrite <- (insert_delete_eq obj k (Count (S n))).
    rewrite <- (insert_delete_id obj k (Count n) Ht) at 2.
    rewrite !counts_total_insert_fresh by apply lookup_delete_eq.
    simpl. lia.
  - rewrite Hp, Hin. split; [done|].
    by rewrite counts_total_insert_fresh.
Qed.

Lemma counts_total_foldl {A} (key : A → string) (l : list A) :
  Forall (fun x => key x ∉ Object_prototype) l →
  ∀ obj, counts_only obj →
  counts_total (foldl (fun obj m => count_up (key m) obj) obj l)
  = (counts_total obj + length l)%nat.
Proof.
  induction 1 as [|x l Hx Hl IH]; intros obj Hobj; simpl; [lia|].
  destruct (count_up_counts (key x) obj Hx Hobj) as [Hobj' Htot].
  rewrite IH by done. lia.
Qed.

Lemma sort_insert_Permutation {A} (cmp : A → A → Z) x l :
  sort_insert cmp x l ≡ₚ x :: l.
Proof.
  induction l as [|y l IH]; simpl; [done|].
  destruct (cmp x y <=? 0); [done|]. rewrite IH. apply Permutation_swap.
Qed.

Lemma js_sort_Permutation {A} (cmp : A → A → Z) (l : list A) :
  js_sort cmp l ≡ₚ l.
Proof.
  induction l as [|x l IH]; simpl; [done|].
  by rewrite sort_insert_Permutation, IH.
Qed.

(** Sorting by the difference of a key puts the keys in descending
    order. *)
Lemma js_sort_descending {A} (key : A → Z) (l : list A) :
  StronglySorted (fun a b => key b ≤ key a)
                 (js_sort (fun a b => key b - key a) l).
Proof.
  induction l as [|x l IH]; simpl; [constructor|].
  fold (js_sort (fun a b => key b - key a) l).
  induction IH as [|y s Hs IH Hall]; simpl; [repeat constructor|].
  destruct (Z.leb_spec (key y - key x) 0).
  - constructor; [by constructor|]. constructor; [lia|].
    eapply Forall_impl; [exact Hall|]. simpl. intros; lia.
  - constructor; [done|].
    rewrite sort_insert_Permutation. constructor; [lia|done].
Qed.

(** X14. In the statistics of a subject the materials are counted by type
    and by folder in an object that started as [{}].  Under a key that
    [Object.prototype] does not have, the object holds the number of
    materials of that type (of that folder), and no property when there
    is none.  Under a key that names an inherited property, such as
    [constructor] or [__proto__], nothing is ever counted.  When no
    material's type is such a name the counts by type add up to the
    number of materials, and likewise for the folders. *)
Theorem material_counts_add_up materials k :
  let stats := material_stats materials in
  totalMaterials stats = length materials ∧
  (k ∉ Object_prototype →
   byType stats !! k
     = tally_of (length (filter (fun m => m_type m = k) materials)) ∧
   byFolder stats !! k
     = tally_of (length (filter (fun m => m_folder m = k) materials))) ∧
  (k ∈ Object_prototype →
   ∀ n, byType stats !! k ≠ Some (Count n) ∧
        byFolder stats !! k ≠ Some (Count n)) ∧
  (Forall (fun m => m_type m ∉ Object_prototype) materials →
   counts_total (byType stats) = length materials) ∧
  (Forall (fun m => m_folder m ∉ Object_prototype) materials →
   counts_total (byFolder stats) = length materials).
Proof.
  cbn zeta. unfold material_stats.
  cbn [totalMaterials byType byFolder].
  set (by_date := js_sort _ (js_sort _ materials)).
  assert (Hperm : by_date ≡ₚ materials)
    by (subst by_date; by rewrite !js_sort_Permutation).
  split; [done|]. split; [|split; [|split]].
  - intros Hk. split.
    + rewrite (foldl_count_up_lookup m_type k by_date Hk ∅ 0) by done.
      by rewrite Hperm.
    + rewrite (foldl_count_up_lookup m_folder k by_date Hk ∅ 0) by done.
      by rewrite Hperm.
  - intros Hk n.
    assert (Hempty : uncounted (∅ : gmap string Tally) k) by (by left).
    split.
    + destruct (foldl_count_up_uncounted m_type k by_date Hk ∅ Hempty)
        as [->|(s & -> & _)]; done.
    + destruct (foldl_count_up_uncounted m_folder k by_date Hk ∅ Hempty)
        as [->|(s & -> & _)]; done.
  - intros Hall. rewrite counts_total_foldl.
    + unfold counts_total. rewrite map_fold_empty. by rewrite Hperm.
    + by rewrite Hperm.
    + by intros ? ? ?.
  - intros Hall. rewrite counts_total_foldl.
    + unfold counts_total. rewrite map_fold_empty. by rewrite Hperm.
    + by rewrite Hperm.
    + by intros ? ? ?.
Qed.

(** X15. The most-downloaded list of the statistics holds at most five
    materials of the subject, in descending order of downloads, and no
    material left out has more downloads than one listed; the
    recent-uploads list does the same by creation time. *)
Theorem material_top_five materials :
  let stats := material_stats materials in
  (∃ rest,
     mostDownloaded stats ++ rest ≡ₚ materials ∧
     (length (mostDownloaded stats) ≤ 5)%nat ∧
     (length (mostDownloaded stats) < 5 → rest = [])%nat ∧
     StronglySorted (fun a b => downloads_or_0 b ≤ downloads_or_0 a)
                    (mostDownloaded stats) ∧
     ∀ a b, a ∈ mostDownloaded stats → b ∈ rest →
            downloads_or_0 b ≤ downloads_or_0 a) ∧
  (∃ rest,
     recentUploads stats ++ rest ≡ₚ materials ∧
     (length (recentUploads stats) ≤ 5)%nat ∧
     (length (recentUploads stats) < 5 → rest = [])%nat ∧
     StronglySorted (fun a b => m_createdAt b ≤ m_createdAt a)
                    (recentUploads stats) ∧
     ∀ a b, a ∈ recentUploads stats → b ∈ rest →
            m_createdAt b ≤ m_createdAt a).
Proof.
  assert (Htop : ∀ (key : Material → Z) (l : list Material),
    StronglySorted (fun a b => key b ≤ key a) l →
    ∃ rest, take 5 l ++ rest = l ∧ (length (take 5 l) ≤ 5)%nat ∧
      (length (take 5 l) < 5 → rest = [])%nat ∧
      StronglySorted (fun a b => key b ≤ key a) (take 5 l) ∧
      ∀ a b, a ∈ take 5 l → b ∈ rest → key b ≤ key a).
  { intros key l Hs. exists (drop 5 l).
    split; [apply take_drop|]. split; [rewrite length_take; lia|].
    split; [rewrite length_take; intros; apply drop_ge; lia|].
    rewrite <- (take_drop 5 l) in Hs. split.
    - by apply StronglySorted_app_1_l in Hs.
    - intros a b Ha Hb.
      exact (StronglySorted_app_1_elem_of _ _ _ _ _ Hs Ha Hb). }
  simpl. split.
  - destruct (Htop downloads_or_0 _ (js_sort_descending downloads_or_0 materials))
      as (rest & H1 & H2 & H3 & H4 & H5).
    exists rest. rewrite H1. split; [apply js_sort_Permutation|done].
  - destruct (Htop m_createdAt _
                (js_sort_descending m_createdAt
                   (js_sort (fun a b => downloads_or_0 b - downloads_or_0 a)
                            materials)))
      as (rest & H1 & H2 & H3 & H4 & H5).
    exists rest. rewrite H1. split; [|done].
    by rewrite !js_sort_Permutation.
Qed.

(** ** Choosing a port *)

Lemma attempt_spec listen retries : ∀ port,
  match attempt listen port retries with
  | Bound q =>
      port ≤ q ≤ port + Z.of_nat retries ∧ listen q = Listening ∧
      ∀ k, port ≤ k < q → listen k = AddressInUse
  | Exited =>
      ∃ q, port ≤ q ≤ port + Z.of_nat retries ∧
           (∀ k, port ≤ k < q → listen k = AddressInUse) ∧
           (listen q = OtherError ∨
            (listen q = AddressInUse ∧ q = port + Z.of_nat retries))
  end.
Proof.
  induction retries as [|n IH]; intros port; simpl.
  - destruct (listen port) eqn:Hl.
    + split; [lia|]. split; [done|]. intros; lia.
    + exists port. split; [lia|]. split; [intros; lia|]. right. split; [done|lia].
    + exists port. split; [lia|]. split; [intros; lia|]. by left.
  - destruct (listen port) eqn:Hl.
    + split; [lia|]. split; [done|]. intros; lia.
    + specialize (IH (port + 1)).
      destruct (attempt listen (port + 1) n) as [q|].
      * destruct IH as (H1 & H2 & H3). split; [lia|]. split; [done|].
        intros k Hk. destruct (decide (k = port)) as [->|]; [done|].
        apply H3. lia.
      * destruct IH as (q & H1 & H2 & H3). exists q. split; [lia|]. split.
        -- intros k Hk. destruct (decide (k = port)) as [->|]; [done|].
           apply H2. lia.
        -- destruct H3 as [?|[? ?]]; [by left|right]. split; [done|lia].
    + exists port. split; [lia|]. split; [intros; lia|]. by left.
Qed.

(** X16. The server binds the first port, counting up from the preferred
    one (8080 when none is given), that is not in use, trying at most
    eleven ports; it gives up when a port fails for another reason or
    when all eleven are in use, and it never binds a port while a lower
    one of the eleven was free. *)
Theorem listen_binds_first_free_port listen preferred :
  let first := duration_or preferred 8080 in
  match listenWithFallback listen preferred with
  | Bound q =>
      first ≤ q ≤ first + 10 ∧ listen q = Listening ∧
      ∀ k, first ≤ k < q → listen k = AddressInUse
  | Exited =>
      ∃ q, first ≤ q ≤ first + 10 ∧
           (∀ k, first ≤ k < q → listen k = AddressInUse) ∧
           (listen q = OtherError ∨
            (listen q = AddressInUse ∧ q = first + 10))
  end.
Proof.
  intros first. unfold listenWithFallback. fold first.
  exact (attempt_spec listen 10 first).
Qed.

(** * More about the client engine *)

(** ** Player statistics *)

Lemma Math_round_le x y : (x <= y)%Q → Math_round x ≤ Math_round y.
Proof.
  intros H. unfold Math_round. apply Qfloor_resp_le.
  by apply Qplus_le_l.
Qed.

Lemma Math_round_between a b x :
  (inject_Z a <= x)%Q → (x <= inject_Z b)%Q → a ≤ Math_round x ≤ b.
Proof.
  intros Ha Hb.
  pose proof (Math_round_le _ _ Ha) as H1.
  pose proof (Math_round_le _ _ Hb) as H2.
  rewrite Math_round_inject_Z in H1, H2. lia.
Qed.

Lemma total_xp_snoc acts a : total_xp (acts ++ [a]) = total_xp acts + raw_or_0 a.
Proof. unfold total_xp. by rewrite foldl_snoc. Qed.



(** ** Stored results *)

Lemma ratio_between_0_and_1 a b :
  0 ≤ a ≤ b → 0 < b →
  (0 <= inject_Z a / inject_Z b)%Q ∧ (inject_Z a / inject_Z b <= 1)%Q.
Proof.
  intros Ha Hb. split.
  - apply Qle_shift_div_l.
    + change 0%Q with (inject_Z 0). rewrite <- Zlt_Qlt. lia.
    + rewrite Qmult_0_l. change 0%Q with (inject_Z 0). rewrite <- Zle_Qle. lia.
  - apply Qle_shift_div_r.
    + change 0%Q with (inject_Z 0). rewrite <- Zlt_Qlt. lia.
    + rewrite Qmult_1_l. rewrite <- Zle_Qle. lia.
Qed.

Lemma scaled_ratio_between a b t :
  0 ≤ a ≤ b → 0 < b → 0 ≤ t →
  0 ≤ Math_round (inject_Z a / inject_Z b * inject_Z t)%Q ≤ t.
Proof.
  intros Ha Hb Ht. destruct (ratio_between_0_and_1 a b Ha Hb) as [H0 H1].
  assert (Ht' : (0 <= inject_Z t)%Q)
    by (change 0%Q with (inject_Z 0); rewrite <- Zle_Qle; lia).
  apply Math_round_between.
  - change (inject_Z 0) with 0%Q. by apply Qmult_le_0_compat.
  - apply (Qle_trans _ (1 * inject_Z t)%Q);
      [by apply Qmult_le_compat_r|by rewrite Qmult_1_l; apply Qle_refl].
Qed.

(** X18. Saving a result appends exactly one record to the stored
    activities and raises the player's total XP by the score, doubled
    when double XP is on (by nothing when the score is NaN); the
    percentage it stores lies between 0 and 100 whenever the score lies
    between 0 and a positive total, and is 100 for a full score. *)
Theorem saved_result_adds_its_xp b gameId gameType score totalPoints
    startTime now :
  let b' := saveResult b gameId gameType score totalPoints startTime now in
  doubleXP b' = doubleXP b ∧
  (∃ a, activities b' = activities b ++ [a] ∧
        act_gameId a = gameId ∧
        act_timeTaken a = (now - startTime) / 1000 ∧
        act_rawScore a
          = (if doubleXP b then (fun s => s * 2) <$> score else score) ∧
        (∀ s, score = Some s → 0 ≤ s ≤ totalPoints → 0 < totalPoints →
           ∃ pct, act_score a = Some pct ∧ 0 ≤ pct ≤ 100 ∧
                  (s = totalPoints → pct = 100))) ∧
  total_xp (activities b')
    = total_xp (activities b)
      + default 0 (if doubleXP b then (fun s => s * 2) <$> score else score).
Proof.
  simpl. split; [done|]. split.
  - eexists. split; [reflexivity|]. simpl. repeat split.
    intros s -> Hs Ht. simpl. unfold js_div.
    destruct (Z.eqb_spec totalPoints 0) as [|_]; [lia|]. simpl.
    eexists. split; [reflexivity|]. split.
    + change 100%Q with (inject_Z 100).
      by apply (scaled_ratio_between s totalPoints 100).
    + intros ->. rewrite (Math_round_Qeq _ (inject_Z 100));
        [apply Math_round_inject_Z|].
      change (inject_Z 100) with 100%Q. field.
      apply inject_Z_nonzero. lia.
  - by rewrite total_xp_snoc.
Qed.

(** ** Sorter *)

Lemma playSorter_stack l : ∀ cats score,
  length cats = length l →
  playSorter cats (mkSorterState (removelast l) score (last l))
  = Some (score + 10 * Z.of_nat (sorted_right cats (rev l))).
Proof.
  induction l as [|x l IH] using rev_ind; intros cats score Hlen.
  - destruct cats; [|done]. simpl. f_equal. lia.
  - rewrite length_app in Hlen. simpl in Hlen.
    destruct cats as [|cat cats]; [simpl in Hlen; lia|].
    rewrite last_snoc, removelast_last, rev_unit.
    cbn [playSorter currentItem]. unfold sortItem. simpl.
    rewrite IH by (simpl in Hlen; lia).
    f_equal. destruct (String.eqb cat (si_category x)); lia.
Qed.

Lemma sorted_right_le cats shown :
  (sorted_right cats shown ≤ length shown)%nat.
Proof.
  revert shown. induction cats as [|c cats IH]; intros [|x shown]; simpl;
    try lia.
  specialize (IH shown). destruct (String.eqb _ _); lia.
Qed.

(** X19. The sorter shows the items of a game last to first, each once;
    after one click per item it finishes with 10 points for every item
    put into its own category, so with a score between 0 and 10 times
    the number of items.  A game without items finishes at once with
    0. *)
Theorem sorter_scores_ten_per_match game cats :
  let items := default [] (sg_items game) in
  length cats = length items →
  playSorter cats (sorter_start game)
    = Some (10 * Z.of_nat (sorted_right cats (rev items))) ∧
  (sorted_right cats (rev items) ≤ length items)%nat ∧
  (items = [] → playSorter cats (sorter_start game) = Some 0).
Proof.
  intros items Hlen. unfold sorter_start. fold items.
  rewrite playSorter_stack by done. split; [f_equal; lia|]. split.
  - rewrite <- length_rev. apply sorted_right_le.
  - intros ->. by destruct cats.
Qed.

Lemma sorter_scores_ten_per_match_witness :
  let game := mkSorterGame "s1" "sorter"
                (Some [mkSorterItem "CSS" "frontend";
                       mkSorterItem "SQL" "backend"])
                (Some ["frontend"; "backend"]) 20 (Some 5) in
  length ["backend"; "backend"] = length (default [] (sg_items game)) ∧
  playSorter ["backend"; "backend"] (sorter_start game) = Some 10.
Proof.
  intros game. assert (H : length ["backend"; "backend"]
                           = length (default [] (sg_items game))) by reflexivity.
  split; [exact H|].
  exact (proj1 (sorter_scores_ten_per_match game ["backend"; "backend"] H)).
Defined.

(** ** SQL builder *)

Section SqlFacts.

Variable inline_arg : string → option string.

(** X20. When every block on the screen is text that its button's inline
    handler passes on unchanged, clicking blocks in and out of the query
    never loses, changes or duplicates one: after any run of clicks the
    built query and the available blocks together are the blocks the
    screen held before, up to order. *)
Theorem sql_clicks_keep_the_blocks cs : ∀ st st',
  Forall (fun b => inline_arg b = Some b)
         (builtQuery st ++ availableBlocks st) →
  sql_clicks inline_arg cs st = Some st' →
  builtQuery st' ++ availableBlocks st'
    ≡ₚ builtQuery st ++ availableBlocks st.
Proof.
  induction cs as [|c cs IH]; intros st0 st1 Hplain H; simpl in H.
  { by injection H as <-. }
  destruct (sql_click inline_arg c st0) as [st'|] eqn:Hc; [|done].
  simpl in H.
  assert (Hstep : builtQuery st' ++ availableBlocks st'
                    ≡ₚ builtQuery st0 ++ availableBlocks st0).
  { destruct c as [idx|idx]; simpl in Hc.
    - unfold click_available in Hc.
      destruct (availableBlocks st0 !! idx) as [b|] eqn:Hb; [|done].
      cbn in Hc.
      assert (Hpass : inline_arg b = Some b).
      { rewrite Forall_forall in Hplain. apply Hplain.
        apply elem_of_app. right. by eapply list_elem_of_lookup_2. }
      rewrite Hpass in Hc. cbn in Hc. injection Hc as <-. simpl.
      rewrite (delete_Permutation _ _ _ Hb) at 2.
      rewrite <- app_assoc. simpl. done.
    - unfold removeFromQuery in Hc.
      destruct (builtQuery st0 !! idx) as [b|] eqn:Hb; [|done].
      injection Hc as <-. simpl.
      rewrite (delete_Permutation _ _ _ Hb) at 2. simpl.
      rewrite (Permutation_app_comm (availableBlocks st0) [b]). simpl.
      by rewrite Permutation_middle. }
  rewrite <- Hstep. apply IH; [|done].
  by rewrite Hstep.
Qed.

End SqlFacts.

Lemma sql_clicks_keep_the_blocks_witness :
  sql_clicks demo_inline
             [ClickAvailable 1; ClickAvailable 0; ClickBuilt 0]
             (sql_start ["FROM t"; "SELECT *"; "DROP"])
    = Some (mkSqlState ["FROM t"] ["DROP"; "SELECT *"]) ∧
  ["FROM t"] ++ ["DROP"; "SELECT *"] ≡ₚ [] ++ ["FROM t"; "SELECT *"; "DROP"].
Proof.
  assert (H : sql_clicks demo_inline
                [ClickAvailable 1; ClickAvailable 0; ClickBuilt 0]
                (sql_start ["FROM t"; "SELECT *"; "DROP"])
              = Some (mkSqlState ["FROM t"] ["DROP"; "SELECT *"]))
    by reflexivity.
  split; [exact H|].
  apply (sql_clicks_keep_the_blocks demo_inline
           [ClickAvailable 1; ClickAvailable 0; ClickBuilt 0]
           (sql_start ["FROM t"; "SELECT *"; "DROP"])
           (mkSqlState ["FROM t"] ["DROP"; "SELECT *"])); [|exact H].
  repeat constructor.
Defined.

Lemma tokens_in_place_le built blocks :
  (tokens_in_place built blocks ≤ length blocks)%nat.
Proof.
  revert blocks. induction built as [|b built IH]; intros [|c blocks]; simpl;
    try lia.
  specialize (IH blocks). destruct (String.eqb _ _); lia.
Qed.

(** X21. The SQL score is the game's totalPoints when the built query is
    the reference sequence of blocks; and whatever is built, distractors
    and extra blocks included, for a game with at least one reference
    block and totalPoints that are not negative the score is a number
    between 0 and totalPoints. *)
Theorem sql_score_is_bounded game st :
  (builtQuery st = qg_blocks game →
   checkSQL game st = Some (qg_totalPoints game)) ∧
  (qg_blocks game ≠ [] → 0 ≤ qg_totalPoints game →
   ∃ s, checkSQL game st = Some s ∧ 0 ≤ s ≤ qg_totalPoints game).
Proof.
  split.
  - intros H. unfold checkSQL. by rewrite H, String.eqb_refl.
  - intros Hne Ht. unfold checkSQL.
    destruct (String.eqb _ _); [exists (qg_totalPoints game); split; [done|lia]|].
    unfold js_div.
    destruct (Z.eqb_spec (Z.of_nat (length (qg_blocks game))) 0) as [E|_].
    { destruct (qg_blocks game); [done|simpl in E; lia]. }
    simpl. eexists. split; [reflexivity|].
    apply scaled_ratio_between; [|  |done].
    + pose proof (tokens_in_place_le (builtQuery st) (qg_blocks game)). lia.
    + destruct (qg_blocks game); [done|simpl; lia].
Qed.


(** * More about the fill-in screen *)






Section FillInFacts.

Variable inline_arg : string → option string.





End FillInFacts.



(** * More about unjumble *)

Lemma insert_delete_Permutation {A} (l : list A) : ∀ j a b,
  l !! j = Some b → <[j := a]> l ≡ₚ a :: delete j l.
Proof.
  induction l as [|x l IH]; intros [|j] a b Hj; try done.
  simpl in Hj. cbn [insert list_insert delete list_delete].
  rewrite (IH j a b Hj). apply Permutation_swap.
Qed.

(** Swapping two places of a list reorders it. *)
Lemma swap_Permutation {A} (l : list A) : ∀ i j a b,
  l !! i = Some a → l !! j = Some b →
  <[j := a]> (<[i := b]> l) ≡ₚ l.
Proof.
  induction l as [|x l IH]; intros [|i] [|j] a b Hi Hj; try done;
    simpl in Hi, Hj.
  - by injection Hi as ->.
  - injection Hi as ->. cbn [insert list_insert].
    rewrite (insert_delete_Permutation l j a b Hj).
    rewrite (delete_Permutation l j b Hj) at 2. apply Permutation_swap.
  - injection Hj as ->. cbn [insert list_insert].
    rewrite (insert_delete_Permutation l i b a Hi).
    rewrite (delete_Permutation l i a Hi) at 2. apply Permutation_swap.
  - cbn [insert list_insert]. by rewrite (IH i j a b).
Qed.

Lemma moveLine_reorders idx p p' :
  moveLine idx p = Some p' →
  shuffledLines p' ≡ₚ shuffledLines p ∧
  up_game p' = up_game p ∧ up_startTime p' = up_startTime p ∧
  up_browser p' = up_browser p ∧ up_screen p' = up_screen p.
Proof.
  unfold moveLine. destruct (selectedIdx p) as [sel|].
  - destruct (shuffledLines p !! sel) as [temp|] eqn:Hsel; [|done].
    destruct (shuffledLines p !! idx) as [other|] eqn:Hidx; [|done].
    cbn. intros [= <-]. cbn. split; [|done].
    by apply swap_Permutation.
  - by intros [= <-].
Qed.

(** X24. Clicking lines on the unjumble screen only reorders them:
    after any clicks the screen shows the same lines, each with the
    position it had in the game, none lost and none twice, and nothing was
    stored, scored or restarted. *)
Theorem unjumble_moves_reorder_lines idxs : ∀ p p',
  moveLines idxs p = Some p' →
  shuffledLines p' ≡ₚ shuffledLines p ∧
  up_game p' = up_game p ∧ up_startTime p' = up_startTime p ∧
  up_browser p' = up_browser p ∧ up_screen p' = up_screen p.
Proof.
  induction idxs as [|idx idxs IH]; intros p p' Hmoves;
    cbn [moveLines] in Hmoves.
  - by injection Hmoves as <-.
  - destruct (moveLine idx p) as [p1|] eqn:Hmove; [|done]. cbn in Hmoves.
    destruct (moveLine_reorders _ _ _ Hmove) as (Hp & Hg & Ht & Hb & Hs).
    destruct (IH _ _ Hmoves) as (Hp' & Hg' & Ht' & Hb' & Hs').
    rewrite Hp', Hg', Ht', Hb', Hs'. done.
Qed.

Lemma unjumble_moves_reorder_lines_witness :
  let game := mkUnjumbleGame "u1" "unjumble" (Some ["a"; "b"; "c"]) 30 None in
  let p := mkUnjumblePage game [("c", 2%nat); ("a", 0%nat); ("b", 1%nat)]
             None 0 (mkBrowser [] false) Playing in
  let p' := mkUnjumblePage game [("a", 0%nat); ("b", 1%nat); ("c", 2%nat)]
              None 0 (mkBrowser [] false) Playing in
  shuffledLines p' ≡ₚ shuffledLines p ∧
  up_game p' = up_game p ∧ up_startTime p' = up_startTime p ∧
  up_browser p' = up_browser p ∧ up_screen p' = up_screen p.
Proof.
  intros game p p'.
  apply (unjumble_moves_reorder_lines [0; 1; 1; 2]%nat p p').
  reflexivity.
Defined.

Lemma lines_in_place_le ls : ∀ k, (lines_in_place ls k ≤ length ls)%nat.
Proof.
  induction ls as [|line rest IH]; intros k; [done|].
  cbn [lines_in_place length]. specialize (IH (S k)).
  destruct (snd line =? k)%nat; lia.
Qed.

Lemma lines_in_place_all ls : ∀ k,
  (∀ i line, ls !! i = Some line → snd line = (k + i)%nat) →
  lines_in_place ls k = length ls.
Proof.
  induction ls as [|line rest IH]; intros k Hall; [done|].
  cbn [lines_in_place length].
  rewrite (Hall 0%nat line eq_refl), Nat.add_0_r, Nat.eqb_refl.
  rewrite IH; [done|].
  intros i l Hi. rewrite (Hall (S i) l Hi). lia.
Qed.

Lemma lines_in_place_full ls : ∀ k,
  lines_in_place ls k = length ls →
  ∀ i line, ls !! i = Some line → snd line = (k + i)%nat.
Proof.
  induction ls as [|l rest IH]; intros k Hfull i line Hi; [done|].
  cbn [lines_in_place length] in Hfull.
  pose proof (lines_in_place_le rest (S k)) as Hle.
  destruct (Nat.eqb_spec (snd l) k) as [Hk|]; [|lia].
  destruct i as [|i]; simpl in Hi.
  - injection Hi as <-. lia.
  - rewrite (IH (S k) ltac:(lia) i line Hi). lia.
Qed.

Lemma indexed_lines_lookup game i line :
  indexed_lines game !! i = Some line ↔
  ∃ text, default [] (ug_lines game) !! i = Some text ∧ line = (text, i).
Proof.
  unfold indexed_lines. rewrite list_lookup_imap.
  destruct (default [] (ug_lines game) !! i) as [text|]; cbn.
  - split; [intros [= <-]; eauto|]. by intros (t & [= <-] & ->).
  - split; [done|]. by intros (t & ? & _).
Qed.

(** X25. Checking an unjumble game with lines, whatever order the shuffle
    and the clicks left them in, shows a score between 0 and the game's
    total points; every line counts as in place exactly when the lines
    stand in the game's own order, and then the score is the total. *)
Theorem unjumble_full_score_needs_original_order now p ls :
  ug_lines (up_game p) = Some ls → ls ≠ [] →
  shuffledLines p ≡ₚ indexed_lines (up_game p) →
  0 ≤ ug_totalPoints (up_game p) →
  (lines_in_place (shuffledLines p) 0 = length ls
   ↔ shuffledLines p = indexed_lines (up_game p)) ∧
  (∃ score,
     up_screen (checkUnjumble now p)
       = ShowResult (Some score) (ug_totalPoints (up_game p)) ∧
     0 ≤ score ≤ ug_totalPoints (up_game p) ∧
     (shuffledLines p = indexed_lines (up_game p) →
      score = ug_totalPoints (up_game p))).
Proof.
  intros Hls Hne Hperm Htp.
  assert (Hlen : length (shuffledLines p) = length ls).
  { rewrite Hperm. unfold indexed_lines. by rewrite length_imap, Hls. }
  assert (Hiff : lines_in_place (shuffledLines p) 0 = length ls
                 ↔ shuffledLines p = indexed_lines (up_game p)).
  { split.
    - intros Hfull. rewrite <- Hlen in Hfull.
      pose proof (lines_in_place_full _ 0 Hfull) as Hall.
      apply list_eq. intros i.
      destruct (shuffledLines p !! i) as [[text k]|] eqn:Hi.
      + pose proof (Hall _ _ Hi) as Hk. simpl in Hk. subst k.
        assert (Hin : (text, i) ∈ indexed_lines (up_game p)).
        { rewrite <- Hperm. by eapply list_elem_of_lookup_2. }
        apply list_elem_of_lookup in Hin as (j & Hj).
        pose proof Hj as Hj'.
        apply indexed_lines_lookup in Hj' as (t & _ & [= -> ->]).
        by rewrite Hj.
      + symmetry. apply lookup_ge_None. apply lookup_ge_None in Hi.
        unfold indexed_lines. rewrite length_imap, Hls. cbn. lia.
    - intros Heq. rewrite <- Hlen. apply lines_in_place_all.
      intros i line Hi. rewrite Heq in Hi.
      by apply indexed_lines_lookup in Hi as (t & _ & ->). }
  split; [done|].
  unfold checkUnjumble, js_div. cbn [up_screen]. rewrite Hls.
  destruct (Z.eqb_spec (Z.of_nat (length ls)) 0) as [E|Hnz].
  { destruct ls; [done|simpl in E; lia]. }
  cbn [fmap option_fmap option_map]. eexists. split; [reflexivity|].
  pose proof (lines_in_place_le (shuffledLines p) 0) as Hle.
  split.
  - assert (0 < Z.of_nat (length ls)) by lia.
    apply scaled_ratio_between; [lia|done|done].
  - intros Heq. apply Hiff in Heq. rewrite Heq.
    rewrite (Math_round_Qeq _ (inject_Z (ug_totalPoints (up_game p))));
      [apply Math_round_inject_Z|].
    field. by apply length_nonzero_Q.
Qed.

Lemma unjumble_full_score_needs_original_order_witness :
  let game := mkUnjumbleGame "u1" "unjumble" (Some ["a"; "b"; "c"]) 30 None in
  let p := mkUnjumblePage game [("c", 2%nat); ("a", 0%nat); ("b", 1%nat)]
             None 0 (mkBrowser [] false) Playing in
  (lines_in_place (shuffledLines p) 0 = 3%nat
   ↔ shuffledLines p = indexed_lines game) ∧
  (∃ score,
     up_screen (checkUnjumble 5000 p) = ShowResult (Some score) 30 ∧
     0 ≤ score ≤ 30 ∧
     (shuffledLines p = indexed_lines game → score = 30)).
Proof.
  intros game p.
  apply (unjumble_full_score_needs_original_order 5000 p ["a"; "b"; "c"]).
  - reflexivity.
  - discriminate.
  - cbn. transitivity [("a", 0%nat); ("c", 2%nat); ("b", 1%nat)].
    + apply Permutation_swap.
    + apply Permutation_skip, Permutation_swap.
  - cbn. lia.
Defined.


(** * More about the quiz *)

Lemma playQuiz_from questions : ∀ selections k sc,
  (k + length selections)%nat = length questions →
  playQuiz questions selections (mkQuizState k sc)
  = Some (sc + 10 * Z.of_nat (answers_right (drop k questions) selections),
          Z.of_nat (length questions) * 10).
Proof.
  induction selections as [|sel rest IH]; intros k sc Hlen.
  - simpl in Hlen. cbn [playQuiz qz_currentQuestionIndex qz_score].
    replace (length questions <=? k)%nat with true
      by (symmetry; apply Nat.leb_le; lia).
    do 2 f_equal. destruct (drop k questions); simpl; lia.
  - simpl in Hlen. cbn [playQuiz qz_currentQuestionIndex qz_score].
    replace (length questions <=? k)%nat with false
      by (symmetry; apply Nat.leb_gt; lia).
    destruct (lookup_lt_is_Some_2 questions k ltac:(lia)) as [q Hq].
    unfold handleAnswer. cbn [qz_currentQuestionIndex qz_score].
    rewrite Hq. cbn [mbind option_bind].
    rewrite IH by lia. rewrite (drop_S _ _ _ Hq). cbn [answers_right].
    do 2 f_equal. destruct (num_strict_eq sel (get_prop q "correct")); lia.
Qed.

(** X26. On questions that do carry a [correct] property the quiz engine
    keeps the rule: one selection per question gives 10 points for every
    selection that equals its question's [correct], out of 10 per
    question; with fewer selections than questions the quiz has not
    finished. *)
Theorem quiz_scores_ten_per_right_answer questions selections :
  (length selections = length questions →
   playQuiz questions selections (mkQuizState 0 0)
   = Some (10 * Z.of_nat (answers_right questions selections),
           Z.of_nat (length questions) * 10)) ∧
  ((length selections < length questions)%nat →
   playQuiz questions selections (mkQuizState 0 0) = None).
Proof.
  split.
  - intros Hlen. by rewrite playQuiz_from.
  - assert (Hgen : ∀ sels k sc,
      (k + length sels < length questions)%nat →
      playQuiz questions sels (mkQuizState k sc) = None).
    { induction sels as [|sel rest IH]; intros k sc Hlt; simpl in Hlt;
        cbn [playQuiz qz_currentQuestionIndex qz_score];
        (replace (length questions <=? k)%nat with false
          by (symmetry; apply Nat.leb_gt; lia)); [done|].
      destruct (lookup_lt_is_Some_2 questions k ltac:(lia)) as [q Hq].
      unfold handleAnswer. cbn [qz_currentQuestionIndex qz_score].
      rewrite Hq. cbn [mbind option_bind]. apply IH. lia. }
    intros Hlt. by apply Hgen.
Qed.

Lemma quiz_scores_ten_per_right_answer_witness :
  let questions :=
    [JObj [("text", JStr "2 + 2 = ?"); ("options", JArr [JStr "3"; JStr "4"]);
           ("correct", JNum 1)];
     JObj [("text", JStr "3 + 3 = ?"); ("options", JArr [JStr "6"; JStr "9"]);
           ("correct", JNum 0)]] in
  playQuiz questions [1; 1] (mkQuizState 0 0) = Some (10 * 1, 2 * 10) ∧
  playQuiz questions [1] (mkQuizState 0 0) = None.
Proof.
  intros questions.
  destruct (quiz_scores_ten_per_right_answer questions [1; 1]) as [H1 _].
  destruct (quiz_scores_ten_per_right_answer questions [1]) as [_ H2].
  split; [apply H1; reflexivity|apply H2; simpl; lia].
Defined.

(** X27. The quiz form drops the option fields left empty, so the stored
    options close up: with options A and B filled in, as the form
    requires, an option typed into field D while field C is empty is
    stored, and shown by the engine, at index 2, and no stored option has
    index 3, although the form stores 3 when D's radio button is the
    chosen one. *)
Theorem quiz_form_closes_up_options c :
  qc_opt0 c ≠ EmptyString → qc_opt1 c ≠ EmptyString →
  let opts := question_options (parseQuestion c) in
  get_prop (parseQuestion c) "correctIndex" = JNum (qc_correct c) ∧
  opts !! 0%nat = Some (JStr (qc_opt0 c)) ∧
  opts !! 1%nat = Some (JStr (qc_opt1 c)) ∧
  (qc_opt2 c ≠ EmptyString →
   opts !! 2%nat = Some (JStr (qc_opt2 c)) ∧
   opts !! 3%nat = (if String.eqb (qc_opt3 c) EmptyString then None
                    else Some (JStr (qc_opt3 c)))) ∧
  (qc_opt2 c = EmptyString →
   opts !! 2%nat = (if String.eqb (qc_opt3 c) EmptyString then None
                    else Some (JStr (qc_opt3 c))) ∧
   opts !! 3%nat = None).
Proof.
  intros H0 H1 opts. subst opts.
  unfold question_options, parseQuestion. simpl.
  destruct (String.eqb_spec (qc_opt0 c) EmptyString) as [|_]; [done|].
  destruct (String.eqb_spec (qc_opt1 c) EmptyString) as [|_]; [done|].
  destruct (String.eqb_spec (qc_opt2 c) EmptyString) as [E2|E2],
           (String.eqb_spec (qc_opt3 c) EmptyString) as [E3|E3]; simpl;
    repeat split; try done.
Qed.

Lemma quiz_form_closes_up_options_witness :
  let c := mkQuestionCard "Largest?" "1" "2" EmptyString "4" 3 (Some 10) in
  let opts := question_options (parseQuestion c) in
  get_prop (parseQuestion c) "correctIndex" = JNum 3 ∧
  opts !! 0%nat = Some (JStr "1") ∧
  opts !! 1%nat = Some (JStr "2") ∧
  (qc_opt2 c ≠ EmptyString →
   opts !! 2%nat = Some (JStr (qc_opt2 c)) ∧
   opts !! 3%nat = (if String.eqb (qc_opt3 c) EmptyString then None
                    else Some (JStr (qc_opt3 c)))) ∧
  (qc_opt2 c = EmptyString →
   opts !! 2%nat = (if String.eqb (qc_opt3 c) EmptyString then None
                    else Some (JStr (qc_opt3 c))) ∧
   opts !! 3%nat = None).
Proof.
  intros c.
  apply (quiz_form_closes_up_options c); discriminate.
Defined.

(** * The lobby *)



(** * Worked examples for the catalog and the accounts *)

Lemma created_then_published_is_eligible_witness :
  let user := mkTokenPayload 7 "admin" "head.mca@cmrit.ac.in" "Head" in
  let body := mkGameBody (Some "Joins") (Some "quiz") (Some "easy")
                         (Some "pick the join") in
  let g := mkGame 1 "Joins" "quiz" "easy" "pick the join" false 7 in
  let db1 := (games_create (empty_db []) user body).1 in
  let r := games_publish unary_id db1 user "aa" in
  r.2 = GamePublished (publish g) ∧
  games r.1 = [] ++ [publish g] ∧
  g_id g ∈ g_id <$> List.filter (query_matches (mkStartBody None None))
                                (games r.1).
Proof.
  intros user body g.
  apply (created_then_published_is_eligible unary_id (empty_db []) user body
           "aa" g); reflexivity.
Defined.

Lemma small_catalog_is_drawn_whole_witness :
  Game_aggregate demo_games (mkStartBody None None) (fun _ => 0%nat)
    ≡ₚ [100; 101; 103]%nat.
Proof.
  apply (small_catalog_is_drawn_whole demo_games (mkStartBody None None)
           (fun _ => 0%nat)).
  vm_compute. lia.
Defined.

Lemma signup_then_login_witness :
  let body := mkSignupBody (Some "Asha") (Some "Asha.MCA25@cmrit.ac.in")
                           (Some "secret1") (Some "student") in
  let view := mkUserView "Asha" "asha.mca25@cmrit.ac.in" "student" in
  (signup demo_lower demo_hash demo_token no_accounts body 7 1000).2
    = SignedIn 201 "asha.mca25@cmrit.ac.in+" view ∧
  login demo_lower demo_compare demo_token
        (signup demo_lower demo_hash demo_token no_accounts body 7 1000).1
        (mkLoginBody (Some "asha.mca25@CMRIT.ac.in") (Some "secret1")
                     (Some "student")) 3000
  = SignedIn 200 "asha.mca25@cmrit.ac.in+++" view.
Proof.
  intros body view.
  destruct (signup_then_login demo_lower demo_hash demo_compare demo_token
              no_accounts body 7 1000 "asha.mca25@CMRIT.ac.in"
              "asha.mca25@cmrit.ac.in+" view 3000)
    as (uid & user & Hu & _ & _ & _ & Hlogin).
  - apply NoDup_nil_2.
  - reflexivity.
  - reflexivity.
  - reflexivity.
  - reflexivity.
  - split; [reflexivity|].
    refine (eq_trans Hlogin _). destruct uid as [|uid]; [|done].
    injection Hu as <-. reflexivity.
Defined.

Lemma forgot_then_reset_witness :
  let a := mkAccounts [demo_user] [] [] in
  let a1 := (password_forgot demo_lower demo_hash a
               (Some "Asha.mca25@cmrit.ac.in") "123456" 3 true 1000).1 in
  let r := password_reset demo_lower demo_hash demo_compare a1
             (mkResetBody (Some "Asha.mca25@cmrit.ac.in") (Some "123456")
                          (Some "secret2")) 4 2000 in
  r.2 = Message 200 "Password updated successfully" ∧
  users r.1 = [mkUser "Asha" "asha.mca25@cmrit.ac.in" "$secret2" "student"].
Proof.
  intros a a1 r.
  destruct (forgot_then_reset demo_lower demo_hash demo_compare demo_token
              a 0%nat demo_user "Asha.mca25@cmrit.ac.in" "123456" 3 true 1000
              "secret2" 4 2000 3000) as (_ & Hok & _).
  - apply NoDup_singleton.
  - reflexivity.
  - reflexivity.
  - reflexivity.
  - reflexivity.
  - reflexivity.
  - reflexivity.
  - apply Forall_nil_2.
  - destruct (Hok ltac:(lia)) as [Hr _].
    split; [exact (f_equal snd Hr)|exact (f_equal (fun x => users (fst x)) Hr)].
Defined.

